(** * StravaBot: the polling scheduler of the Discord bot

    A shallow embedding of [StravaBot] (the bot's single source file): the two
    in-memory stores [athlete_tokens] and [last_checked], their persistence
    ([load_data], [save_data]), the commands [set_token] and [remove_athlete],
    and the periodic task [check_activities] with [get_recent_activities] and
    [post_activity].

    Effects are explicit.  The bot runs in a small state-and-exception monad
    over the record [Bot]; the outside world (wall clock, HTTP responses of
    the activity API, outcome of each Discord send, channel cache) is a
    record of oracles indexed by how many times each has been consulted.
    Everything the bot does to the outside is appended to [trace]. *)

From stdpp Require Import base list strings.
From stdpp Require Import sorting pretty.
From Stdlib Require Import ZArith Lia.

(** ** Python dictionaries

    A Python [dict] iterates in insertion order, and the scheduler iterates
    over [athlete_tokens.items()], so a dictionary is an association list in
    insertion order rather than an unordered finite map. *)

Module Dict.
Section Dict.
Context {V : Type}.

Definition t := list (string * V).

(** [d.get(k)] *)
Fixpoint get (k : string) (d : t) : option V :=
  match d with
  | [] => None
  | (k', v) :: d' => if decide (k' = k) then Some v else get k d'
  end.

(** [k in d] *)
Definition contains (k : string) (d : t) : bool :=
  match get k d with Some _ => true | None => false end.

(** [d[k] = v]: an existing key keeps its position, a new key goes last. *)
Fixpoint setitem (k : string) (v : V) (d : t) : t :=
  match d with
  | [] => [(k, v)]
  | (k', v') :: d' =>
      if decide (k' = k) then (k', v) :: d' else (k', v') :: setitem k v d'
  end.

(** [del d[k]] for a key that is present (absence is the caller's
    [KeyError]). *)
Fixpoint delitem (k : string) (d : t) : t :=
  match d with
  | [] => []
  | (k', v') :: d' =>
      if decide (k' = k) then delitem k d' else (k', v') :: delitem k d'
  end.

Definition keys (d : t) : list string := d.*1.

(** Keys are unique in a Python dictionary. *)
Definition wf (d : t) : Prop := NoDup (keys d).
End Dict.
Arguments t : clear implicits.
End Dict.

(** ** Time

    [datetime.now()] is a naive local wall-clock instant with microsecond
    resolution; it is kept as a count of microseconds.  [last_checked]
    stores [isoformat()] strings that are only ever read back through
    [datetime.fromisoformat]; the embedding keeps the instant itself. *)

Definition datetime := Z.

(** [timedelta(hours=h)]: a stretch of wall-clock time.  Subtracting it
    from a naive [datetime] moves the wall-clock reading by that much,
    whatever the time zone does in between. *)
Definition timedelta_hours (h : Z) : Z := (h * 3600 * 1000000)%Z.

(** ** Activities as returned by the API

    A JSON object; [post_activity] subscripts the keys [name], [type],
    [start_date_local] and [id] and reads the remaining, rendering-only
    keys through [.get].  [None] stands for a key that is missing (or, for
    the date, a value that [datetime.fromisoformat] rejects): either way
    [post_activity] raises before it sends anything. *)

Record Activity := {
  act_id : option Z;
  act_name : option string;
  act_type : option string;
  act_start_date_local : option datetime;
}.

#[global] Instance Activity_eq_dec : EqDecision Activity.
Proof. solve_decision. Defined.

(** ** Exceptions, all subclasses of Python's [Exception] *)

Inductive exn :=
  | KeyError (key : string)
  | ClientError            (* aiohttp: the request itself failed *)
  | JSONDecodeError        (* a body or file that is not JSON *)
  | HTTPException          (* discord: the send was rejected *)
  | FileNotFoundError.

#[global] Instance exn_eq_dec : EqDecision exn.
Proof. solve_decision. Defined.

Inductive result (A : Type) :=
  | Ok (a : A)
  | Raise (e : exn).
Arguments Ok {A} a.
Arguments Raise {A} e.

(** ** The outside world *)

Inductive HttpOutcome :=
  | Response (status : Z) (json : option (list Activity))
  | ConnectionFailed.

Record World := {
  now_at : nat -> datetime;        (* the i-th reading of datetime.now() *)
  http_at : nat -> HttpOutcome;    (* the outcome of the i-th session.get *)
  send_at : nat -> bool;           (* does the i-th channel.send succeed *)
  channel_at : nat -> bool;        (* does the i-th get_channel find it *)
  utc_offset : datetime -> Z;      (* local time minus UTC, in microseconds,
                                      as the machine's time zone has it at
                                      the naive local time given *)
}.

(** [int(d.timestamp())] for a naive [d]: the local wall-clock reading is
    converted to POSIX time through the machine's time zone, and the whole
    seconds are kept (truncated towards zero). *)
Definition timestamp (w : World) (d : datetime) : Z :=
  Z.quot (d - utc_offset w d) 1000000.

(** The persisted file, as [json.load] sees it. *)
Inductive File :=
  | NoFile
  | NotJson
  | JsonDoc (athlete_tokens : option (Dict.t string))
            (last_checked : option (Dict.t datetime)).

Inductive Event :=
  | EvGet (athlete_id access_token : string) (after per_page : Z)
  | EvFetchFailed (status : Z)
  | EvSend (athlete_id : string) (activity : Activity)
  | EvPosted (athlete_id : string) (activity_id : Z)
  | EvError (athlete_id : string) (e : exn)
  | EvNoChannel
  | EvSave (athlete_tokens : Dict.t string) (last_checked : Dict.t datetime)
  | EvNoSavedData
  | EvReply (msg : string).

(** ** The bot *)

Record Bot := {
  athlete_tokens : Dict.t string;
  last_checked : Dict.t datetime;
  bot_data : File;          (* bot_data.json as save_data last wrote it *)
  loop_running : bool;      (* check_activities.is_running() *)
  clock_reads : nat;
  requests : nat;
  sends : nat;
  lookups : nat;            (* calls of get_channel *)
  trace : list Event;
}.

Definition M (A : Type) : Type := Bot -> result A * Bot.

Definition ret {A} (a : A) : M A := fun s => (Ok a, s).

Definition bind {A B} (m : M A) (k : A -> M B) : M B :=
  fun s => match m s with
           | (Ok a, s') => k a s'
           | (Raise e, s') => (Raise e, s')
           end.

Definition raise {A} (e : exn) : M A := fun s => (Raise e, s).

Declare Scope bot_scope.
Delimit Scope bot_scope with bot.
Notation "'let*' x ':=' m 'in' k" := (bind m (fun x => k))
  (at level 10, x pattern, m at level 100, k at level 200) : bot_scope.
Notation "m ';;' k" := (bind m (fun _ => k))
  (at level 100, k at level 200, right associativity) : bot_scope.
Local Open Scope bot_scope.

Definition gets {A} (f : Bot -> A) : M A := fun s => (Ok (f s), s).
Definition modify (f : Bot -> Bot) : M unit := fun s => (Ok tt, f s).

(** [try: m  except Exception as e: h e] *)
Definition try_except {A} (m : M A) (h : exn -> M A) : M A :=
  fun s => match m s with
           | (Ok a, s') => (Ok a, s')
           | (Raise e, s') => h e s'
           end.

(** [try: m  except FileNotFoundError: h] *)
Definition try_except_FileNotFoundError {A} (m : M A) (h : M A) : M A :=
  fun s => match m s with
           | (Raise FileNotFoundError, s') => h s'
           | r => r
           end.

(** [for x in xs: body x] *)
Fixpoint for_each {X} (xs : list X) (body : X -> M unit) : M unit :=
  match xs with
  | [] => ret tt
  | x :: xs' => body x ;; for_each xs' body
  end.

Definition set_athlete_tokens (d : Dict.t string) (s : Bot) : Bot :=
  {| athlete_tokens := d; last_checked := last_checked s;
     bot_data := bot_data s; loop_running := loop_running s;
     clock_reads := clock_reads s; requests := requests s; sends := sends s;
     lookups := lookups s; trace := trace s |}.

Definition set_last_checked (d : Dict.t datetime) (s : Bot) : Bot :=
  {| athlete_tokens := athlete_tokens s; last_checked := d;
     bot_data := bot_data s; loop_running := loop_running s;
     clock_reads := clock_reads s; requests := requests s; sends := sends s;
     lookups := lookups s; trace := trace s |}.

Definition set_bot_data (f : File) (s : Bot) : Bot :=
  {| athlete_tokens := athlete_tokens s; last_checked := last_checked s;
     bot_data := f; loop_running := loop_running s;
     clock_reads := clock_reads s; requests := requests s; sends := sends s;
     lookups := lookups s; trace := trace s |}.

Definition set_loop_running (b : bool) (s : Bot) : Bot :=
  {| athlete_tokens := athlete_tokens s; last_checked := last_checked s;
     bot_data := bot_data s; loop_running := b;
     clock_reads := clock_reads s; requests := requests s; sends := sends s;
     lookups := lookups s; trace := trace s |}.

Definition emit (e : Event) : M unit :=
  modify (fun s =>
    {| athlete_tokens := athlete_tokens s; last_checked := last_checked s;
       bot_data := bot_data s; loop_running := loop_running s;
       clock_reads := clock_reads s; requests := requests s; sends := sends s;
       lookups := lookups s; trace := trace s ++ [e] |}).

Section Bot.
Variable w : World.

(** [datetime.now()] *)
Definition datetime_now : M datetime :=
  fun s =>
    (Ok (now_at w (clock_reads s)),
     {| athlete_tokens := athlete_tokens s; last_checked := last_checked s;
        bot_data := bot_data s; loop_running := loop_running s;
        clock_reads := S (clock_reads s); requests := requests s;
        sends := sends s; lookups := lookups s; trace := trace s |}).

(** [session.get(url, headers=..., params=...)]: the request is issued
    (and recorded), then the world answers or the connection fails. *)
Definition session_get (athlete_id access_token : string)
    (after per_page : Z) : M (Z * option (list Activity)) :=
  fun s =>
    let s' :=
      {| athlete_tokens := athlete_tokens s; last_checked := last_checked s;
         bot_data := bot_data s; loop_running := loop_running s;
         clock_reads := clock_reads s; requests := S (requests s);
         sends := sends s; lookups := lookups s;
         trace := trace s ++ [EvGet athlete_id access_token after per_page] |} in
    match http_at w (requests s) with
    | Response status json => (Ok (status, json), s')
    | ConnectionFailed => (Raise ClientError, s')
    end.

(** [channel.send(embed=embed)] *)
Definition channel_send (athlete_id : string) (activity : Activity) : M unit :=
  fun s =>
    let ok := send_at w (sends s) in
    ((if ok then Ok tt else Raise HTTPException),
     {| athlete_tokens := athlete_tokens s; last_checked := last_checked s;
        bot_data := bot_data s; loop_running := loop_running s;
        clock_reads := clock_reads s; requests := requests s;
        sends := S (sends s); lookups := lookups s;
        trace := if ok then trace s ++ [EvSend athlete_id activity]
                 else trace s |}).

(** [self.get_channel(self.discord_channel_id)] *)
Definition get_channel : M bool :=
  fun s =>
    (Ok (channel_at w (lookups s)),
     {| athlete_tokens := athlete_tokens s; last_checked := last_checked s;
        bot_data := bot_data s; loop_running := loop_running s;
        clock_reads := clock_reads s; requests := requests s;
        sends := sends s; lookups := S (lookups s); trace := trace s |}).

(** [activity[key]] *)
Definition subscript {A} (key : string) (field : option A) : M A :=
  match field with
  | Some a => ret a
  | None => raise (KeyError key)
  end.

(** [save_data]: both maps go into one JSON document, written in one
    [json.dump].  The write itself is taken to succeed. *)
Definition save_data : M unit :=
  let* tokens := gets athlete_tokens in
  let* checked := gets last_checked in
  modify (set_bot_data (JsonDoc (Some tokens) (Some checked))) ;;
  emit (EvSave tokens checked).

(** [load_data], reading the file found at the path the source names. *)
Definition open_read (f : File)
    : M (option (Dict.t string) * option (Dict.t datetime)) :=
  match f with
  | NoFile => raise FileNotFoundError
  | NotJson => raise JSONDecodeError
  | JsonDoc tokens checked => ret (tokens, checked)
  end.

Definition load_data (f : File) : M unit :=
  try_except_FileNotFoundError
    (let* data := open_read f in
     modify (set_athlete_tokens (default [] data.1)) ;;
     modify (set_last_checked (default [] data.2)))
    (emit EvNoSavedData).

(** [get_recent_activities] *)
Definition get_recent_activities (athlete_id access_token : string)
    : M (list Activity) :=
  let* last_check := gets (fun s => Dict.get athlete_id (last_checked s)) in
  let* after_timestamp :=
    match last_check with
    | Some d => ret (timestamp w d)
    | None =>
        let* now := datetime_now in
        ret (timestamp w (now - timedelta_hours 24)%Z)
    end in
  let* response := session_get athlete_id access_token after_timestamp 10 in
  if decide (response.1 = 200%Z) then
    match response.2 with
    | Some activities => ret activities
    | None => raise JSONDecodeError
    end
  else
    emit (EvFetchFailed response.1) ;;
    ret [].

(** [post_activity] *)
Definition post_activity (activity : Activity) (athlete_id : string) : M unit :=
  let* _ := subscript "name" (act_name activity) in
  let* _ := subscript "type" (act_type activity) in
  let* _ := subscript "start_date_local" (act_start_date_local activity) in
  let* activity_id := subscript "id" (act_id activity) in
  channel_send athlete_id activity ;;
  emit (EvPosted athlete_id activity_id).

(** The body of the [for] loop of [check_activities], with its
    [try]/[except Exception]. *)
Definition check_athlete (item : string * string) : M unit :=
  let athlete_id := item.1 in
  let access_token := item.2 in
  try_except
    (let* activities := get_recent_activities athlete_id access_token in
     for_each activities (fun activity => post_activity activity athlete_id) ;;
     let* now := datetime_now in
     let* checked := gets last_checked in
     modify (set_last_checked (Dict.setitem athlete_id now checked)))
    (fun e => emit (EvError athlete_id e)).

(** [check_activities], one run of the periodic task. *)
Definition check_activities : M unit :=
  let* tokens := gets athlete_tokens in
  match tokens with
  | [] => ret tt
  | _ :: _ =>
      let* channel := get_channel in
      if channel then
        for_each tokens check_athlete ;;
        save_data
      else
        emit EvNoChannel
  end.

(** [set_token].  The reply through [ctx.send] is recorded, not sent
    through the channel oracle: it comes after everything the command does
    to the stores. *)
Definition set_token (athlete_id access_token : string) : M unit :=
  let* tokens := gets athlete_tokens in
  modify (set_athlete_tokens (Dict.setitem athlete_id access_token tokens)) ;;
  let* now := datetime_now in
  let* checked := gets last_checked in
  modify (set_last_checked (Dict.setitem athlete_id now checked)) ;;
  save_data ;;
  emit (EvReply ("Token set for athlete " +:+ athlete_id)).

(** [remove_athlete] *)
Definition remove_athlete (athlete_id : string) : M unit :=
  let* tokens := gets athlete_tokens in
  if Dict.contains athlete_id tokens then
    modify (set_athlete_tokens (Dict.delitem athlete_id tokens)) ;;
    let* checked := gets last_checked in
    (if Dict.contains athlete_id checked then
       modify (set_last_checked (Dict.delitem athlete_id checked))
     else raise (KeyError athlete_id)) ;;
    save_data ;;
    emit (EvReply ("Removed athlete " +:+ athlete_id))
  else
    emit (EvReply ("Athlete " +:+ athlete_id +:+ " not found")).

(** [on_ready] *)
Definition on_ready : M unit :=
  let* running := gets loop_running in
  if running then ret tt else modify (set_loop_running true).
End Bot.

(** [StravaBot.__init__]: both stores start empty, then [load_data] on the
    file [f] found at the absolute path the source names.  [bot_data] is
    the file [save_data] writes, [bot_data.json] in the working directory,
    which need not be that file; it is absent at the start. *)
Definition blank : Bot :=
  {| athlete_tokens := []; last_checked := []; bot_data := NoFile;
     loop_running := false; clock_reads := 0; requests := 0; sends := 0;
     lookups := 0; trace := [] |}.

Definition init (f : File) : result unit * Bot := load_data f blank.

(** ** The scheduler driven by the outside: commands and timer ticks *)

Inductive Op :=
  | SetToken (athlete_id access_token : string)
  | RemoveAthlete (athlete_id : string)
  | Ready
  | Tick.

(** A command that raises is reported by the command framework and leaves
    the bot running with whatever it had already changed; the periodic task
    stops for good when one of its runs raises. *)
Definition step (w : World) (op : Op) (s : Bot) : Bot :=
  match op with
  | SetToken athlete_id access_token => (set_token w athlete_id access_token s).2
  | RemoveAthlete athlete_id => (remove_athlete athlete_id s).2
  | Ready => (on_ready s).2
  | Tick =>
      if loop_running s then
        match check_activities w s with
        | (Ok _, s') => s'
        | (Raise _, s') => set_loop_running false s'
        end
      else s
  end.

Definition run (w : World) (ops : list Op) (s : Bot) : Bot :=
  foldl (fun s op => step w op s) s ops.

(** ** Reading the trace *)

(** What happened between two states of one execution. *)
Definition new_events (s s' : Bot) : list Event :=
  drop (length (trace s)) (trace s').

(** The activities delivered to the channel on behalf of [athlete_id]. *)
Definition sent_to (athlete_id : string) (evs : list Event) : list Activity :=
  omap (fun e => match e with
                 | EvSend u a => if decide (u = athlete_id) then Some a else None
                 | _ => None
                 end) evs.

(** The requests issued, as (athlete, [after]) pairs. *)
Definition fetched (evs : list Event) : list (string * Z) :=
  omap (fun e => match e with
                 | EvGet u _ after _ => Some (u, after)
                 | _ => None
                 end) evs.

(** The writes of the data file. *)
Definition saves (evs : list Event)
    : list (Dict.t string * Dict.t datetime) :=
  omap (fun e => match e with
                 | EvSave tokens checked => Some (tokens, checked)
                 | _ => None
                 end) evs.

(** The watermark of [athlete_id] in the data file. *)
Definition persisted (athlete_id : string) (s : Bot) : option datetime :=
  match bot_data s with
  | JsonDoc _ (Some checked) => Dict.get athlete_id checked
  | _ => None
  end.

(** An activity [post_activity] can render: all subscripted keys present. *)
Definition renderable (a : Activity) : bool :=
  bool_decide (is_Some (act_name a)) && bool_decide (is_Some (act_type a))
  && bool_decide (is_Some (act_start_date_local a))
  && bool_decide (is_Some (act_id a)).

(** The prefix of [acts] that the delivery loop gets through when the next
    send is the [n]-th. *)
Fixpoint delivered (w : World) (n : nat) (acts : list Activity) : list Activity :=
  match acts with
  | [] => []
  | a :: acts' =>
      if renderable a && send_at w n then a :: delivered w (S n) acts' else []
  end.

Definition posted_events (athlete_id : string) (acts : list Activity) : list Event :=
  acts ≫= (fun a => [EvSend athlete_id a;
                      EvPosted athlete_id (default 0%Z (act_id a))]).

(** The state in which a run of [check_activities] started in [s] reaches
    the athlete that follows [before] in [athlete_tokens]. *)
Definition cycle_upto (w : World) (before : list (string * string)) (s : Bot) : Bot :=
  (for_each before (check_athlete w) (get_channel w s).2).2.

(** Ascending start times. *)
Definition start_le (a b : Activity) : Prop :=
  match act_start_date_local a, act_start_date_local b with
  | Some x, Some y => (x <= y)%Z
  | _, _ => False
  end.

Definition ascending (acts : list Activity) : Prop := StronglySorted start_le acts.

(** Wall-clock readings that never step backwards. *)
Definition monotone_clock (w : World) : Prop :=
  forall i j, i <= j -> (now_at w i <= now_at w j)%Z.

(** The window of a request for [athlete_id] issued in state [s]: the
    [after] parameter, and the number of clock readings taken once it is
    computed. *)
Definition window (w : World) (athlete_id : string) (s : Bot) : Z * nat :=
  match Dict.get athlete_id (last_checked s) with
  | Some d => (timestamp w d, clock_reads s)
  | None =>
      (timestamp w (now_at w (clock_reads s) - timedelta_hours 24)%Z,
       S (clock_reads s))
  end.

(** What delivering and fetching leave alone. *)
Definition same_stores (s s' : Bot) : Prop :=
  athlete_tokens s' = athlete_tokens s /\ last_checked s' = last_checked s
  /\ bot_data s' = bot_data s /\ loop_running s' = loop_running s
  /\ lookups s' = lookups s.

(** What the loop over the athletes leaves alone. *)
Definition loop_frame (s s' : Bot) : Prop :=
  athlete_tokens s' = athlete_tokens s /\ bot_data s' = bot_data s
  /\ loop_running s' = loop_running s /\ lookups s' = lookups s
  /\ clock_reads s <= clock_reads s'
  /\ exists evs, trace s' = trace s ++ evs /\ saves evs = [].

Definition mem_advances (w : World) (s s' : Bot) : Prop :=
  clock_reads s <= clock_reads s'
  /\ forall u t', Dict.get u (last_checked s') = Some t' ->
       Dict.get u (last_checked s) = Some t'
       \/ exists i, clock_reads s <= i < clock_reads s' /\ t' = now_at w i.

Definition advances (w : World) (s s' : Bot) : Prop :=
  mem_advances w s s'
  /\ forall u t', persisted u s' = Some t' ->
       persisted u s = Some t'
       \/ Dict.get u (last_checked s) = Some t'
       \/ exists i, clock_reads s <= i < clock_reads s' /\ t' = now_at w i.

Definition timely (w : World) (s : Bot) : Prop :=
  (forall u t, Dict.get u (last_checked s) = Some t ->
               (t <= now_at w (clock_reads s))%Z)
  /\ (forall u t, persisted u s = Some t ->
        (t <= now_at w (clock_reads s))%Z
        /\ forall t', Dict.get u (last_checked s) = Some t' -> (t <= t')%Z).

Definition paired (s : Bot) : Prop :=
  forall u, is_Some (Dict.get u (athlete_tokens s))
            <-> is_Some (Dict.get u (last_checked s)).

Definition consistent (s : Bot) : Prop :=
  forall u, is_Some (Dict.get u (last_checked s)) ->
            is_Some (Dict.get u (athlete_tokens s)).

(** The [after] parameters of the requests issued for [athlete_id]. *)
Definition asked_after (athlete_id : string) (evs : list Event) : list Z :=
  (filter (fun p => p.1 = athlete_id) (fetched evs)).*2.

(** ** The spec's sentences, as predicates on runs *)

(** "After a user's activities are processed, the updated watermark is on
    disk before the next user is taken up." *)
Definition persisted_before_next_user (w : World) (s : Bot) : Prop :=
  forall before u tok after,
    athlete_tokens s = before ++ (u, tok) :: after -> after <> [] ->
    let s2 := cycle_upto w (before ++ [(u, tok)]) s in
    persisted u s2 = Dict.get u (last_checked s2).

(** "The watermark equals the start time of the last activity that was
    delivered." *)
Definition watermark_follows_delivery (w : World) (s : Bot) (u : string) : Prop :=
  let s' := (check_activities w s).2 in
  forall a, last (sent_to u (new_events s s')) = Some a ->
            Dict.get u (last_checked s') = act_start_date_local a.

(** "A user whose credential is rejected is skipped by the next cycle." *)
Definition skipped_once_rejected (w : World) (s : Bot) (u : string) : Prop :=
  forall before tok after st body,
    athlete_tokens s = before ++ (u, tok) :: after ->
    http_at w (requests (cycle_upto w before s)) = Response st body ->
    (st = 401 \/ st = 403)%Z ->
    let s' := step w Tick s in
    u ∉ (fetched (new_events s' (step w Tick s'))).*1.

(** "The initial watermark is the registration time minus 24 hours." *)
Definition bootstrap_watermark (w : World) (s : Bot) (u tok : string) : Prop :=
  Dict.get u (last_checked (step w (SetToken u tok) s))
  = Some (now_at w (clock_reads s) - timedelta_hours 24)%Z.

(** ** Scenarios *)

Module Scenario.
(** An instant in November 2023, and a clock read once a quarter of an
    hour after it. *)
Definition T0 : datetime := 1700000000000000%Z.
Definition quarter : Z := 900000000%Z.

Definition activity (i : Z) (title : string) (start : datetime) : Activity :=
  {| act_id := Some i; act_name := Some title; act_type := Some "Run"%string;
     act_start_date_local := Some start |}.

(** A world that answers the requests with [http] in turn (then with empty
    lists), lets the sends end as [outcomes] say in turn (then well), and
    always finds the channel. *)
Definition scripted (http : list HttpOutcome) (outcomes : list bool) : World :=
  {| now_at i := (T0 + quarter * Z.of_nat i)%Z;
     http_at i := default (Response 200 (Some [])) (http !! i);
     send_at i := default true (outcomes !! i);
     channel_at _ := true;
     utc_offset _ := 0%Z |}.

Definition one_athlete (w : World) : Bot :=
  run w [Ready; SetToken "U1" "token-1"] (init NoFile).2.

Definition two_athletes (w : World) : Bot :=
  run w [Ready; SetToken "U1" "token-1"; SetToken "U2" "token-2"]
    (init NoFile).2.

Definition morning : Activity := activity 11 "Morning run" (T0 + 60000000)%Z.
Definition noon : Activity := activity 12 "Lunch run" (T0 + 120000000)%Z.

(** The API lists the later activity first. *)
Definition newest_first : World :=
  scripted [Response 200 (Some [noon; morning])] [].

(** The second send of the cycle is rejected. *)
Definition second_send_fails : World :=
  scripted [Response 200 (Some [morning; noon])] [true; false].

(** The second athlete's credential is rejected. *)
Definition second_rejected : World :=
  scripted [Response 200 (Some []); Response 401 None] [].

(** The API answers the first request with a server error. *)
Definition server_error : World := scripted [Response 500 None] [].


Definition quiet : World := scripted [] [].
End Scenario.

(** "The watermark of a user never decreases", between two points of a
    run. *)
Definition never_decreases (w : World) (s : Bot) (ops1 ops2 : list Op)
    (u : string) : Prop :=
  let s1 := run w ops1 s in
  let s2 := run w (ops1 ++ ops2) s in
  (forall t t', Dict.get u (last_checked s1) = Some t ->
                Dict.get u (last_checked s2) = Some t' -> (t <= t')%Z)
  /\ (forall t t', persisted u s1 = Some t ->
                   persisted u s2 = Some t' -> (t <= t')%Z).



(** ** More of the bot: readers, [list_athletes], restarts, the time field *)

(** The credentials the requests were sent with, and their page size. *)
Definition tokens_used (evs : list Event) : list (string * string * Z) :=
  omap (fun e => match e with
                 | EvGet u tok _ per_page => Some (u, tok, per_page)
                 | _ => None
                 end) evs.

(** The replies of the commands. *)
Definition replies (evs : list Event) : list string :=
  omap (fun e => match e with EvReply msg => Some msg | _ => None end) evs.

(** [list_athletes] *)
Definition list_athletes : M unit :=
  let* tokens := gets athlete_tokens in
  match tokens with
  | [] => emit (EvReply "No athletes being monitored")
  | _ :: _ =>
      emit (EvReply ("Monitoring athletes: "
                     +:+ String.concat ", " (Dict.keys tokens)))
  end.

(** What [save_data] last wrote is what the stores hold. *)
Definition file_matches_stores (s : Bot) : Prop :=
  match bot_data s with
  | NoFile => athlete_tokens s = [] /\ last_checked s = []
  | NotJson => False
  | JsonDoc tokens checked =>
      tokens = Some (athlete_tokens s) /\ checked = Some (last_checked s)
  end.

(** The [Time] field of [post_activity]'s embed.  [moving_time] is taken
    as the integer number of seconds the API sends; [divmod] on integers
    with a positive divisor is floor division, as [Z.div] and [Z.modulo]
    are. *)
Definition hms (moving_time : Z) : Z * Z * Z :=
  let hours := (moving_time / 3600)%Z in
  let remainder := (moving_time mod 3600)%Z in
  let minutes := (remainder / 60)%Z in
  let seconds := (remainder mod 60)%Z in
  (hours, minutes, seconds).

(** [f"{n:02d}"]: decimal, padded with zeros to two characters (the sign
    of a negative number counts as one). *)
Definition fmt02d (n : Z) : string :=
  if decide (0 <= n < 10)%Z then "0" +:+ pretty n else pretty n.

Definition time_str (moving_time : Z) : string :=
  let '(hours, minutes, seconds) := hms moving_time in
  fmt02d hours +:+ ":" +:+ fmt02d minutes +:+ ":" +:+ fmt02d seconds.

(** The field is added only [if activity.get('moving_time')]: the key is
    there and its value is not zero. *)
Definition time_field (moving_time : option Z) : option string :=
  match moving_time with
  | Some t => if decide (t = 0%Z) then None else Some (time_str t)
  | None => None
  end.

Module MoreScenarios.
Import Scenario.

(** A data file that holds a credential and no watermarks at all. *)
Definition credential_only : File :=
  JsonDoc (Some [("U1", "token-1")]) None.

(** Everything the API lists is delivered. *)
Definition all_delivered : World :=
  scripted [Response 200 (Some [morning; noon])] [].

(** The API answers 200 with a body that is not JSON. *)
Definition garbled : World := scripted [Response 200 None] [].

(** The channel is not in the cache. *)
Definition no_channel : World :=
  {| now_at := now_at quiet; http_at := http_at quiet;
     send_at := send_at quiet; channel_at := fun _ => false;
     utc_offset := utc_offset quiet |}.
End MoreScenarios.

(** ** Clocks and time zones *)

Module ClockScenarios.
Import Scenario.
(** A wall clock that is set back a quarter of an hour after its first
    reading (and again after each later one). *)
Definition stepping_back : World :=
  {| now_at i := (T0 - quarter * Z.of_nat i)%Z;
     http_at := http_at quiet; send_at := send_at quiet;
     channel_at := channel_at quiet; utc_offset := utc_offset quiet |}.

(** A data file whose watermark lies a thousand quarters of an hour after
    [T0]. *)
Definition future_file : File :=
  JsonDoc (Some [("U1", "token-1")])
          (Some [("U1", (T0 + 1000 * quarter)%Z)]).

(** Noon of 29 October 2023 on a wall clock in Berlin, and Berlin's time
    zone around that day: two hours ahead of UTC until 03:00 of the 29th
    (the earlier offset where an hour repeats), one hour from then on. *)
Definition berlin_noon : datetime := 1698580800000000%Z.
Definition berlin : World :=
  {| now_at i := (berlin_noon + quarter * Z.of_nat i)%Z;
     http_at := http_at quiet; send_at := send_at quiet;
     channel_at := channel_at quiet;
     utc_offset d := if decide (d < 1698548400000000)%Z
                     then 7200000000%Z else 3600000000%Z |}.
End ClockScenarios.

(** * Dictionaries *)

Module DictFacts.
Section DictFacts.
Context {V : Type}.
Implicit Types (d : Dict.t V) (k : string) (v : V).

Lemma get_setitem_eq k v d : Dict.get k (Dict.setitem k v d) = Some v.
Proof.
  induction d as [|[k' v'] d IH]; simpl.
  - by rewrite decide_True.
  - destruct (decide (k' = k)) as [->|Hne]; simpl.
    + by rewrite decide_True.
    + by rewrite decide_False.
Qed.

Lemma get_setitem_ne k k' v d :
  k <> k' -> Dict.get k' (Dict.setitem k v d) = Dict.get k' d.
Proof.
  intros Hne. induction d as [|[k0 v0] d IH]; simpl.
  - by rewrite decide_False.
  - destruct (decide (k0 = k)) as [->|Hk]; simpl.
    + by rewrite !decide_False.
    + destruct (decide (k0 = k')); [done | apply IH].
Qed.

Lemma get_setitem k k' v d :
  Dict.get k' (Dict.setitem k v d)
  = if decide (k = k') then Some v else Dict.get k' d.
Proof.
  destruct (decide (k = k')) as [->|Hne];
    [apply get_setitem_eq | by apply get_setitem_ne].
Qed.

Lemma get_delitem_eq k d : Dict.get k (Dict.delitem k d) = None.
Proof.
  induction d as [|[k' v'] d IH]; simpl; [done|].
  destruct (decide (k' = k)); simpl; [done|].
  by rewrite decide_False.
Qed.

Lemma get_delitem_ne k k' d :
  k <> k' -> Dict.get k' (Dict.delitem k d) = Dict.get k' d.
Proof.
  intros Hne. induction d as [|[k0 v0] d IH]; simpl; [done|].
  destruct (decide (k0 = k)) as [->|Hk]; simpl.
  - by rewrite decide_False.
  - by rewrite IH.
Qed.

Lemma get_is_Some k d : is_Some (Dict.get k d) <-> k ∈ Dict.keys d.
Proof.
  unfold Dict.keys. induction d as [|[k' v'] d IH]; simpl.
  - split; [intros [? ?]; done | intros H; inversion H].
  - rewrite elem_of_cons. destruct (decide (k' = k)) as [->|Hne].
    + split; [by left | by eauto].
    + rewrite IH. split; [by right | intros [?|?]; [congruence | done]].
Qed.

Lemma get_None k d : Dict.get k d = None <-> k ∉ Dict.keys d.
Proof. rewrite <- get_is_Some, eq_None_not_Some. done. Qed.

Lemma contains_true k d : Dict.contains k d = true <-> is_Some (Dict.get k d).
Proof.
  unfold Dict.contains. destruct (Dict.get k d); split; try done;
    try (by eauto); by intros [? ?].
Qed.

Lemma contains_false k d : Dict.contains k d = false <-> Dict.get k d = None.
Proof. unfold Dict.contains. destruct (Dict.get k d); split; done. Qed.

(** Assigning to a key that is present never changes the key order. *)
Lemma keys_setitem_present k v d :
  is_Some (Dict.get k d) -> Dict.keys (Dict.setitem k v d) = Dict.keys d.
Proof.
  unfold Dict.keys. induction d as [|[k' v'] d IH]; simpl.
  - intros [? ?]; done.
  - destruct (decide (k' = k)) as [->|Hne]; simpl; [done|].
    intros H. f_equal. by apply IH.
Qed.

(** Assigning to an absent key appends it. *)
Lemma keys_setitem_absent k v d :
  Dict.get k d = None -> Dict.keys (Dict.setitem k v d) = Dict.keys d ++ [k].
Proof.
  unfold Dict.keys. induction d as [|[k' v'] d IH]; simpl; [done|].
  destruct (decide (k' = k)) as [->|Hne]; simpl; [done|].
  intros H. f_equal. by apply IH.
Qed.

Lemma elem_of_keys_delitem k k' d :
  k' ∈ Dict.keys (Dict.delitem k d) <-> k' <> k /\ k' ∈ Dict.keys d.
Proof.
  rewrite <- !get_is_Some. destruct (decide (k = k')) as [->|Hne].
  - rewrite get_delitem_eq. split; [intros [? ?]; done | intros [? _]; done].
  - rewrite get_delitem_ne by done. split; [by split | by intros [_ ?]].
Qed.

Lemma wf_setitem k v d : Dict.wf d -> Dict.wf (Dict.setitem k v d).
Proof.
  unfold Dict.wf. intros Hwf.
  destruct (Dict.get k d) as [v0|] eqn:Hget.
  - rewrite keys_setitem_present; [done | by eauto].
  - rewrite keys_setitem_absent by done.
    apply NoDup_app. split_and!; [done | | apply NoDup_singleton].
    intros x Hx ->%list_elem_of_singleton.
    by apply get_None in Hget.
Qed.

Lemma wf_delitem k d : Dict.wf d -> Dict.wf (Dict.delitem k d).
Proof.
  unfold Dict.wf, Dict.keys. induction d as [|[k' v'] d IH]; simpl; [done|].
  intros [Hnotin Hwf]%NoDup_cons.
  destruct (decide (k' = k)) as [->|Hne]; simpl; [by apply IH|].
  apply NoDup_cons. split; [|by apply IH].
  intros Hin. apply Hnotin.
  by apply (elem_of_keys_delitem k k' d) in Hin as [_ ?].
Qed.
End DictFacts.
End DictFacts.

(** * The monad and the scheduler's building blocks *)

Import DictFacts.

Lemma bind_eq {A B} (m : M A) (k : A -> M B) s :
  bind m k s = match m s with
               | (Ok a, s') => k a s'
               | (Raise e, s') => (Raise e, s')
               end.
Proof. reflexivity. Qed.

Section Facts.
Variable w : World.

Lemma post_activity_spec a u s r s' :
  post_activity w a u s = (r, s') ->
  same_stores s s' /\ clock_reads s' = clock_reads s
  /\ requests s' = requests s
  /\ if renderable a && send_at w (sends s)
     then r = Ok tt /\ sends s' = S (sends s)
          /\ trace s' = trace s ++ posted_events u [a]
     else (exists e, r = Raise e) /\ trace s' = trace s
          /\ sends s <= sends s' <= S (sends s).
Proof.
  unfold same_stores.
  destruct a as [[i|] [n|] [t|] [d|]]; simpl;
    try (intros [= <- <-]; split_and!; by eauto).
  unfold post_activity, bind; simpl.
  destruct (send_at w (sends s)); simpl; intros [= <- <-]; simpl;
    rewrite <- ?app_assoc; split_and!; by eauto.
Qed.

Lemma post_loop_spec u acts s r s' :
  for_each acts (fun a => post_activity w a u) s = (r, s') ->
  same_stores s s' /\ clock_reads s' = clock_reads s
  /\ requests s' = requests s
  /\ trace s' = trace s ++ posted_events u (delivered w (sends s) acts)
  /\ (r = Ok tt <-> delivered w (sends s) acts = acts)
  /\ sends s + length (delivered w (sends s) acts) <= sends s'
     <= sends s + S (length (delivered w (sends s) acts)).
Proof.
  revert s. induction acts as [|a acts IH]; intros s; simpl.
  - intros [= <- <-]. unfold same_stores. rewrite app_nil_r.
    split_and!; try done; simpl; lia.
  - rewrite bind_eq. destruct (post_activity w a u s) as [r1 s1] eqn:Hpost.
    apply post_activity_spec in Hpost
      as ((Ht & Hl & Hb & Hr & Hk) & Hc & Hq & H).
    destruct (renderable a && send_at w (sends s)).
    + destruct H as (-> & Hs & Htr). intros Hloop.
      apply IH in Hloop
        as ((Ht' & Hl' & Hb' & Hr' & Hk') & Hc' & Hq' & Htr' & Hiff & Hsn).
      rewrite Hs in *.
      unfold same_stores. split_and!; try congruence; simpl; try lia.
      * rewrite Htr', Htr, <- app_assoc. done.
      * rewrite Hiff. split; [congruence | by intros [= ->]].
    + destruct H as ([e ->] & Htr & Hsn). intros [= <- <-].
      unfold same_stores. rewrite app_nil_r.
      split_and!; try done; simpl; lia.
Qed.

Lemma get_recent_activities_spec u tok s r s' :
  get_recent_activities w u tok s = (r, s') ->
  same_stores s s' /\ sends s' = sends s
  /\ requests s' = S (requests s)
  /\ clock_reads s' = (window w u s).2
  /\ exists rest,
       trace s' = trace s ++ EvGet u tok (window w u s).1 10 :: rest
       /\ match http_at w (requests s) with
          | ConnectionFailed => r = Raise ClientError /\ rest = []
          | Response st json =>
              if decide (st = 200%Z) then
                match json with
                | Some acts => r = Ok acts /\ rest = []
                | None => r = Raise JSONDecodeError /\ rest = []
                end
              else r = Ok [] /\ rest = [EvFetchFailed st]
          end.
Proof.
  unfold get_recent_activities, window, same_stores.
  unfold bind, gets, ret, session_get, datetime_now, emit, modify, raise.
  destruct (Dict.get u (last_checked s)) as [d|]; simpl;
    destruct (http_at w (requests s)) as [st [acts|]|]; simpl;
    try destruct (decide (st = 200%Z)); simpl;
    intros [= <- <-]; simpl; rewrite <- ?app_assoc; split_and!; by eauto.
Qed.

Lemma check_athlete_spec u tok s r s' :
  check_athlete w (u, tok) s = (r, s') ->
  r = Ok tt /\ athlete_tokens s' = athlete_tokens s
  /\ bot_data s' = bot_data s /\ loop_running s' = loop_running s
  /\ lookups s' = lookups s /\ requests s' = S (requests s)
  /\ exists rest,
       trace s' = trace s ++ EvGet u tok (window w u s).1 10 :: rest
       /\ match http_at w (requests s) with
          | ConnectionFailed =>
              rest = [EvError u ClientError]
              /\ last_checked s' = last_checked s
              /\ clock_reads s' = (window w u s).2
          | Response st json =>
              if decide (st = 200%Z) then
                match json with
                | None =>
                    rest = [EvError u JSONDecodeError]
                    /\ last_checked s' = last_checked s
                    /\ clock_reads s' = (window w u s).2
                | Some acts =>
                    let del := delivered w (sends s) acts in
                    (del = acts ->
                       rest = posted_events u acts
                       /\ last_checked s'
                          = Dict.setitem u (now_at w (window w u s).2)
                              (last_checked s)
                       /\ clock_reads s' = S (window w u s).2)
                    /\ (del <> acts ->
                       (exists e, rest = posted_events u del ++ [EvError u e])
                       /\ last_checked s' = last_checked s
                       /\ clock_reads s' = (window w u s).2)
                end
              else
                rest = [EvFetchFailed st]
                /\ last_checked s'
                   = Dict.setitem u (now_at w (window w u s).2) (last_checked s)
                /\ clock_reads s' = S (window w u s).2
          end.
Proof.
  unfold check_athlete, try_except; simpl. rewrite bind_eq.
  destruct (get_recent_activities w u tok s) as [r1 s1] eqn:Hfetch.
  apply get_recent_activities_spec in Hfetch
    as ((Ht & Hl & Hb & Hr & Hk) & Hs & Hq & Hc & rest1 & Htr & Hhttp).
  destruct r1 as [acts|e].
  - rewrite bind_eq.
    destruct (for_each acts _ s1) as [r2 s2] eqn:Hloop.
    apply post_loop_spec in Hloop
      as ((Ht' & Hl' & Hb' & Hr' & Hk') & Hc' & Hq' & Htr' & Hiff & _).
    rewrite Hs in *.
    assert (Hcase : (r2 = Ok tt /\ delivered w (sends s) acts = acts)
                    \/ (exists e, r2 = Raise e)
                        /\ delivered w (sends s) acts <> acts).
    { destruct r2 as [[]|e]; [left; split; [done | by apply Hiff]|].
      right. split; [by eauto|]. intros Heq. by apply Hiff in Heq. }
    clear Hiff. destruct Hcase as [[-> Hdel]|[[e ->] Hdel]].
    + unfold bind, datetime_now, gets, modify; simpl.
      intros [= <- <-]; simpl. split_and!; try congruence.
      exists (rest1 ++ posted_events u (delivered w (sends s) acts)).
      split; [rewrite Htr', Htr, <- app_assoc; done|].
      destruct (http_at w (requests s)) as [st [acts0|]|];
        try destruct (decide (st = 200%Z));
        destruct Hhttp as [[=] ->]; subst; simpl;
        rewrite ?app_nil_r; try (split_and!; congruence).
      split; [|done]. intros _. rewrite Hdel. split_and!; congruence.
    + unfold emit, modify; simpl.
      intros [= <- <-]; simpl. split_and!; try congruence.
      exists (rest1 ++ posted_events u (delivered w (sends s) acts)
              ++ [EvError u e]).
      split; [rewrite Htr', Htr, <- !app_assoc; done|].
      destruct (http_at w (requests s)) as [st [acts0|]|];
        try destruct (decide (st = 200%Z));
        destruct Hhttp as [[=] ->]; subst; simpl; try done.
      split; [done|]. intros _. split_and!; by eauto with congruence.
  - unfold emit, modify; simpl.
    intros [= <- <-]; simpl. split_and!; try congruence.
    exists (rest1 ++ [EvError u e]).
    split; [rewrite Htr, <- !app_assoc; done|].
    destruct (http_at w (requests s)) as [st [acts0|]|];
      try destruct (decide (st = 200%Z));
      destruct Hhttp as [[=] ->]; subst; simpl; split_and!; congruence.
Qed.

Lemma for_each_app {X} (xs ys : list X) (body : X -> M unit) s :
  for_each (xs ++ ys) body s
  = match for_each xs body s with
    | (Ok _, s1) => for_each ys body s1
    | (Raise e, s1) => (Raise e, s1)
    end.
Proof.
  revert s. induction xs as [|x xs IH]; intros s; simpl; [done|].
  rewrite !bind_eq. destruct (body x s) as [[[]|e] s1]; [apply IH | done].
Qed.

(** Any relation between states that is a preorder and holds across the
    processing of one athlete holds across the whole loop, which never
    raises. *)
Lemma athletes_loop_rel (R : Bot -> Bot -> Prop) items :
  (forall s, R s s) ->
  (forall s1 s2 s3, R s1 s2 -> R s2 s3 -> R s1 s3) ->
  (forall it s r s', it ∈ items -> check_athlete w it s = (r, s') -> R s s') ->
  forall s r s',
    for_each items (check_athlete w) s = (r, s') -> r = Ok tt /\ R s s'.
Proof.
  intros Hrefl Htrans Hstep. induction items as [|[u tok] items IH];
    intros s r s'; simpl.
  - intros [= <- <-]. done.
  - rewrite bind_eq.
    destruct (check_athlete w (u, tok) s) as [r1 s1] eqn:Hone.
    pose proof (Hstep _ _ _ _ (list_elem_of_here _ _) Hone) as HR.
    apply check_athlete_spec in Hone as (-> & _).
    intros Hrest. apply IH in Hrest as [-> HR'].
    + split; [done | by eapply Htrans].
    + intros it s0 r0 s0' Hin. apply Hstep. by apply list_elem_of_further.
Qed.

Lemma athletes_loop_ok items s :
  (for_each items (check_athlete w) s).1 = Ok tt.
Proof.
  destruct (for_each items (check_athlete w) s) as [r s'] eqn:Hloop.
  by apply (athletes_loop_rel (fun _ _ => True)) in Hloop as [-> _].
Qed.

Lemma athletes_loop_app before after s :
  for_each (before ++ after) (check_athlete w) s
  = for_each after (check_athlete w) (for_each before (check_athlete w) s).2.
Proof.
  rewrite for_each_app. pose proof (athletes_loop_ok before s) as Hok.
  destruct (for_each before (check_athlete w) s) as [[[]|e] s1]; done.
Qed.

Lemma sent_to_app v evs evs' : sent_to v (evs ++ evs') = sent_to v evs ++ sent_to v evs'.
Proof. apply omap_app. Qed.
Lemma fetched_app evs evs' : fetched (evs ++ evs') = fetched evs ++ fetched evs'.
Proof. apply omap_app. Qed.
Lemma saves_app evs evs' : saves (evs ++ evs') = saves evs ++ saves evs'.
Proof. apply omap_app. Qed.

Lemma sent_to_posted_events u acts : sent_to u (posted_events u acts) = acts.
Proof.
  induction acts as [|a acts IH]; simpl; [done|].
  rewrite decide_True by done. f_equal. apply IH.
Qed.

Lemma sent_to_posted_events_ne u v acts :
  u <> v -> sent_to v (posted_events u acts) = [].
Proof.
  intros Hne. induction acts as [|a acts IH]; simpl; [done|].
  rewrite decide_False by done. apply IH.
Qed.

Lemma fetched_posted_events u acts : fetched (posted_events u acts) = [].
Proof. induction acts as [|a acts IH]; simpl; [done | apply IH]. Qed.

Lemma saves_posted_events u acts : saves (posted_events u acts) = [].
Proof. induction acts as [|a acts IH]; simpl; [done | apply IH]. Qed.

(** The sends one athlete's turn attempts: none unless the request is
    answered with activities, and then at most one beyond those that
    were delivered. *)
Lemma check_athlete_sends u tok s :
  let s' := (check_athlete w (u, tok) s).2 in
  sends s <= sends s'
  /\ forall acts, http_at w (requests s) = Response 200 (Some acts) ->
       sends s' <= sends s + S (length (delivered w (sends s) acts)).
Proof.
  unfold check_athlete, try_except; simpl. rewrite bind_eq.
  destruct (get_recent_activities w u tok s) as [r1 s1] eqn:Hfetch.
  apply get_recent_activities_spec in Hfetch
    as (_ & Hs & _ & _ & rest1 & _ & Hhttp).
  destruct r1 as [acts|e]; simpl.
  - rewrite bind_eq.
    destruct (for_each acts _ s1) as [r2 s2] eqn:Hloop.
    apply post_loop_spec in Hloop as (_ & _ & _ & _ & _ & Hsn).
    rewrite Hs in Hsn.
    assert (Hgoal : sends s <= sends s2
      /\ forall acts0, http_at w (requests s) = Response 200 (Some acts0) ->
           sends s2 <= sends s + S (length (delivered w (sends s) acts0))).
    { split; [lia|]. intros acts0 Heq. rewrite Heq in Hhttp. simpl in Hhttp.
      destruct Hhttp as [[= ->] _]. lia. }
    by destruct r2 as [[]|e].
  - rewrite Hs. split; [done|]. intros acts0 Heq. lia.
Qed.

(** What one athlete's processing amounts to, whatever the world does. *)
Lemma check_athlete_summary u tok s r s' :
  check_athlete w (u, tok) s = (r, s') ->
  clock_reads s <= clock_reads s'
  /\ (last_checked s' = last_checked s
      \/ exists i, clock_reads s <= i < clock_reads s'
                   /\ last_checked s'
                      = Dict.setitem u (now_at w i) (last_checked s))
  /\ exists evs,
       trace s' = trace s ++ evs
       /\ fetched evs = [(u, (window w u s).1)]
       /\ saves evs = []
       /\ forall v, v <> u -> sent_to v evs = [].
Proof.
  intros Hone. apply check_athlete_spec in Hone
    as (_ & _ & _ & _ & _ & _ & rest & Htr & Hcase).
  assert (Hwin : clock_reads s <= (window w u s).2).
  { unfold window. destruct (Dict.get u (last_checked s)); simpl; lia. }
  assert (Hgoal : clock_reads s <= clock_reads s'
    /\ (last_checked s' = last_checked s
        \/ exists i, clock_reads s <= i < clock_reads s'
                     /\ last_checked s'
                        = Dict.setitem u (now_at w i) (last_checked s))
    /\ fetched rest = [] /\ saves rest = []
    /\ forall v, v <> u -> sent_to v rest = []).
  { destruct (http_at w (requests s)) as [st [acts|]|];
      try destruct (decide (st = 200%Z)) as [Hst|Hst]; simpl in Hcase.
    - destruct (decide (delivered w (sends s) acts = acts)) as [Heq|Hne].
      + apply Hcase in Heq as (-> & -> & ->).
        rewrite fetched_posted_events, saves_posted_events.
        split_and!; try done; [lia | right; eexists; split; [|done]; lia|].
        intros v Hv. by apply sent_to_posted_events_ne.
      + apply Hcase in Hne as ([e ->] & -> & ->).
        rewrite fetched_app, saves_app, fetched_posted_events,
          saves_posted_events.
        split_and!; try done; [by left|].
        intros v Hv. rewrite sent_to_app, sent_to_posted_events_ne by done.
        done.
    - destruct Hcase as (-> & -> & ->).
      split_and!; try done; [lia | right; eexists; split; [|done]; lia].
    - destruct Hcase as (-> & -> & ->). split_and!; try done; by left.
    - destruct Hcase as (-> & -> & ->).
      split_and!; try done; [lia | right; eexists; split; [|done]; lia].
    - destruct Hcase as (-> & -> & ->). split_and!; try done; by left. }
  destruct Hgoal as (? & ? & Hf & Hsv & Hsent). split_and!; try done.
  exists (EvGet u tok (window w u s).1 10 :: rest). simpl. rewrite Hf.
  split_and!; done.
Qed.

Lemma athletes_loop_frame items s :
  loop_frame s (for_each items (check_athlete w) s).2.
Proof.
  destruct (for_each items (check_athlete w) s) as [r s'] eqn:Hloop.
  apply (athletes_loop_rel loop_frame) in Hloop as [_ H]; [done|..].
  - intros s0. unfold loop_frame. split_and!; try done.
    exists []. by rewrite app_nil_r.
  - intros s1 s2 s3 (?&?&?&?&?&evs&Htr&Hsv) (?&?&?&?&?&evs'&Htr'&Hsv').
    unfold loop_frame. split_and!; try congruence; [lia|].
    exists (evs ++ evs'). split; [by rewrite Htr', Htr, app_assoc|].
    by rewrite saves_app, Hsv, Hsv'.
  - intros [u tok] s0 r0 s0' _ Hone.
    pose proof (check_athlete_summary _ _ _ _ _ Hone)
      as (? & _ & evs & ? & _ & ? & _).
    apply check_athlete_spec in Hone as (_ & ? & ? & ? & ? & _).
    unfold loop_frame. split_and!; by eauto.
Qed.

Lemma new_events_app s s' evs :
  trace s' = trace s ++ evs -> new_events s s' = evs.
Proof. unfold new_events. intros ->. by rewrite drop_app_length. Qed.

(** Athletes other than [u] neither touch [u]'s watermark nor send on
    [u]'s behalf. *)
Lemma athletes_loop_other u items s :
  u ∉ Dict.keys items ->
  let s' := (for_each items (check_athlete w) s).2 in
  Dict.get u (last_checked s') = Dict.get u (last_checked s)
  /\ exists evs, trace s' = trace s ++ evs /\ sent_to u evs = []
                 /\ u ∉ (fetched evs).*1.
Proof.
  intros Hnotin. simpl.
  destruct (for_each items (check_athlete w) s) as [r s'] eqn:Hloop.
  apply (athletes_loop_rel (fun s s' =>
    Dict.get u (last_checked s') = Dict.get u (last_checked s)
    /\ exists evs, trace s' = trace s ++ evs /\ sent_to u evs = []
                   /\ u ∉ (fetched evs).*1))
    in Hloop as [_ H]; [done|..].
  - intros s0. split; [done|]. exists []. rewrite app_nil_r.
    split_and!; [done..|]. apply not_elem_of_nil.
  - intros s1 s2 s3 (Hg & evs & Htr & Hsent & Hf)
      (Hg' & evs' & Htr' & Hsent' & Hf').
    split; [congruence|]. exists (evs ++ evs').
    rewrite Htr', Htr, app_assoc, sent_to_app, Hsent, Hsent', fetched_app,
      fmap_app.
    split_and!; [done..|]. rewrite elem_of_app. tauto.
  - intros [v tok] s0 r0 s0' Hin Hone.
    assert (Hne : v <> u).
    { intros ->. apply Hnotin. unfold Dict.keys.
      by apply (list_elem_of_fmap_2 fst) in Hin. }
    apply check_athlete_summary in Hone
      as (_ & Hlc & evs & Htr & Hf & _ & Hsent).
    split.
    + destruct Hlc as [->|(i & _ & ->)]; [done|].
      by rewrite get_setitem_ne.
    + exists evs. rewrite Hf. split_and!; [done | by apply Hsent |].
      simpl. rewrite list_elem_of_singleton. congruence.
Qed.

(** The loop asks for every athlete exactly once, in dictionary order,
    whatever fails on the way. *)
Lemma athletes_loop_fetched items s :
  let s' := (for_each items (check_athlete w) s).2 in
  requests s' = requests s + length items
  /\ exists evs, trace s' = trace s ++ evs
                 /\ (fetched evs).*1 = Dict.keys items.
Proof.
  revert s. induction items as [|[u tok] items IH]; intros s; simpl.
  - split; [lia|]. exists []. by rewrite app_nil_r.
  - rewrite bind_eq.
    destruct (check_athlete w (u, tok) s) as [r1 s1] eqn:Hone.
    pose proof (check_athlete_summary _ _ _ _ _ Hone)
      as (_ & _ & evs & Htr & Hf & _).
    apply check_athlete_spec in Hone as (-> & _ & _ & _ & _ & Hq & _).
    destruct (IH s1) as (Hq' & evs' & Htr' & Hf').
    split; [lia|]. exists (evs ++ evs').
    rewrite Htr', Htr, app_assoc, fetched_app, fmap_app, Hf, Hf'. done.
Qed.

Lemma save_data_spec s :
  save_data s
  = (Ok tt,
     {| athlete_tokens := athlete_tokens s; last_checked := last_checked s;
        bot_data := JsonDoc (Some (athlete_tokens s)) (Some (last_checked s));
        loop_running := loop_running s; clock_reads := clock_reads s;
        requests := requests s; sends := sends s; lookups := lookups s;
        trace := trace s ++ [EvSave (athlete_tokens s) (last_checked s)] |}).
Proof. reflexivity. Qed.

Lemma check_activities_eq s :
  check_activities w s
  = match athlete_tokens s with
    | [] => (Ok tt, s)
    | _ :: _ =>
        if channel_at w (lookups s)
        then save_data (cycle_upto w (athlete_tokens s) s)
        else emit EvNoChannel (get_channel w s).2
    end.
Proof.
  unfold check_activities, cycle_upto. rewrite bind_eq.
  change (gets athlete_tokens s) with (Ok (athlete_tokens s), s).
  cbv beta iota.
  destruct (athlete_tokens s) as [|it items]; [done|].
  rewrite bind_eq.
  change (get_channel w s)
    with (Ok (channel_at w (lookups s)), (get_channel w s).2).
  cbv beta iota. destruct (channel_at w (lookups s)); [|done].
  rewrite bind_eq.
  pose proof (athletes_loop_ok (it :: items) (get_channel w s).2) as Hok.
  by destruct (for_each (it :: items) _ _) as [[[]|e] s1].
Qed.

Lemma check_activities_runs s :
  athlete_tokens s <> [] -> channel_at w (lookups s) = true ->
  check_activities w s = save_data (cycle_upto w (athlete_tokens s) s).
Proof.
  intros Hne Hch. rewrite check_activities_eq, Hch.
  by destruct (athlete_tokens s).
Qed.

Lemma cycle_upto_snoc before u tok s :
  cycle_upto w (before ++ [(u, tok)]) s
  = (check_athlete w (u, tok) (cycle_upto w before s)).2.
Proof.
  unfold cycle_upto. rewrite athletes_loop_app. simpl. rewrite bind_eq.
  by destruct (check_athlete w (u, tok) _) as [[[]|e] s1].
Qed.

Lemma cycle_upto_app before after s :
  cycle_upto w (before ++ after) s
  = (for_each after (check_athlete w) (cycle_upto w before s)).2.
Proof. unfold cycle_upto. by rewrite athletes_loop_app. Qed.

Lemma wf_split (before after : list (string * string)) u tok :
  Dict.wf (before ++ (u, tok) :: after) ->
  (u ∉ Dict.keys before) /\ (u ∉ Dict.keys after).
Proof.
  unfold Dict.wf, Dict.keys. rewrite fmap_app, fmap_cons. simpl.
  intros (_ & Hdisj & [Hnotin _]%NoDup_cons)%NoDup_app. split; [|done].
  intros Hin. apply (Hdisj u Hin). by left.
Qed.

(** A run of the task seen from one athlete: the events before the
    athlete's turn, those of the turn, those after it, and the final save.
    Only the athlete's own turn sends or asks on the athlete's behalf or
    touches the athlete's watermark. *)
Lemma cycle_decompose s before u tok after :
  athlete_tokens s = before ++ (u, tok) :: after ->
  Dict.wf (athlete_tokens s) ->
  channel_at w (lookups s) = true ->
  (let s1 := cycle_upto w before s in
   let s2 := (check_athlete w (u, tok) s1).2 in
   let s' := (check_activities w s).2 in
   Dict.get u (last_checked s1) = Dict.get u (last_checked s)
   /\ Dict.get u (last_checked s') = Dict.get u (last_checked s2)
   /\ exists evs1 evs2 evs3,
        trace s2 = trace s1 ++ evs2
        /\ new_events s s'
           = evs1 ++ evs2 ++ evs3
             ++ [EvSave (athlete_tokens s') (last_checked s')]
        /\ sent_to u evs1 = [] /\ (u ∉ (fetched evs1).*1)
        /\ sent_to u evs3 = [] /\ (u ∉ (fetched evs3).*1)).
Proof.
  intros Hsplit Hwf Hch. rewrite Hsplit in Hwf.
  apply wf_split in Hwf as [Hb Ha]. simpl.
  rewrite check_activities_runs; [|rewrite Hsplit; by destruct before|done].
  rewrite Hsplit, save_data_spec. simpl.
  replace (before ++ (u, tok) :: after)
    with ((before ++ [(u, tok)]) ++ after) by by rewrite <- app_assoc.
  rewrite cycle_upto_app, cycle_upto_snoc.
  set (s1 := cycle_upto w before s).
  destruct (check_athlete w (u, tok) s1) as [r2 s2] eqn:Hone. simpl.
  pose proof (athletes_loop_other u before (get_channel w s).2 Hb)
    as (Hg1 & evs1 & Htr1 & Hsent1 & Hf1).
  pose proof (athletes_loop_other u after s2 Ha)
    as (Hg3 & evs3 & Htr3 & Hsent3 & Hf3).
  cbv zeta in Hg1, Htr1, Hg3, Htr3.
  fold (cycle_upto w before s) in Hg1, Htr1. fold s1 in Hg1, Htr1.
  change (trace (get_channel w s).2) with (trace s) in Htr1.
  change (last_checked (get_channel w s).2) with (last_checked s) in Hg1.
  apply check_athlete_summary in Hone as (_ & _ & evs2 & Htr2 & _).
  split_and!; [done..|].
  exists evs1, evs2, evs3. split_and!; [done | | done..].
  apply new_events_app. simpl. rewrite Htr3, Htr2, Htr1.
  by rewrite <- !app_assoc.
Qed.

(** One athlete's share of a whole run of the task: the watermark the
    run ends with and the deliveries made for the athlete are those of the
    athlete's own turn. *)
Lemma cycle_focus s before u tok after :
  athlete_tokens s = before ++ (u, tok) :: after ->
  Dict.wf (athlete_tokens s) ->
  channel_at w (lookups s) = true ->
  (let s1 := cycle_upto w before s in
   let s2 := (check_athlete w (u, tok) s1).2 in
   let s' := (check_activities w s).2 in
   Dict.get u (last_checked s1) = Dict.get u (last_checked s)
   /\ Dict.get u (last_checked s') = Dict.get u (last_checked s2)
   /\ sent_to u (new_events s s') = sent_to u (new_events s1 s2)).
Proof.
  intros Hsplit Hwf Hch. cbv zeta.
  destruct (cycle_decompose s before u tok after Hsplit Hwf Hch)
    as (Hg1 & Hg2 & evs1 & evs2 & evs3 & Htr2 & Hnew & H1 & _ & H3 & _).
  split_and!; [done..|].
  rewrite Hnew, (new_events_app _ _ _ Htr2), !sent_to_app, H1, H3. simpl.
  by rewrite app_nil_r.
Qed.

Lemma delivered_prefix n acts : delivered w n acts `prefix_of` acts.
Proof.
  revert n. induction acts as [|a acts IH]; intros n; simpl; [done|].
  destruct (renderable a && send_at w n);
    [by apply prefix_cons | apply prefix_nil].
Qed.

Lemma delivered_take n acts k ak :
  (forall i a, i < k -> acts !! i = Some a ->
               renderable a && send_at w (n + i) = true) ->
  acts !! k = Some ak ->
  renderable ak && send_at w (n + k) = false ->
  delivered w n acts = take k acts.
Proof.
  revert n k. induction acts as [|a acts IH]; intros n k Hok Hk Hfail;
    [done|].
  destruct k as [|k]; simpl in *.
  - injection Hk as ->. rewrite Nat.add_0_r in Hfail. by rewrite Hfail.
  - pose proof (Hok 0 a ltac:(lia) eq_refl) as H0.
    rewrite Nat.add_0_r in H0. rewrite H0. f_equal.
    apply IH; [|done|by rewrite Nat.add_succ_comm].
    intros i b Hi Hb. rewrite Nat.add_succ_comm. apply Hok; [lia | done].
Qed.

Lemma ascending_prefix l1 l2 :
  l1 `prefix_of` l2 -> ascending l2 -> ascending l1.
Proof. intros [k ->]. apply StronglySorted_app_1_l. Qed.

(** What a run of the task delivers for an athlete whose request is
    answered with a list of activities. *)
Lemma cycle_sent_to s before u tok after acts :
  athlete_tokens s = before ++ (u, tok) :: after ->
  Dict.wf (athlete_tokens s) ->
  channel_at w (lookups s) = true ->
  http_at w (requests (cycle_upto w before s)) = Response 200 (Some acts) ->
  sent_to u (new_events s (check_activities w s).2)
  = delivered w (sends (cycle_upto w before s)) acts.
Proof.
  intros Hsplit Hwf Hch Hhttp.
  destruct (cycle_focus s before u tok after Hsplit Hwf Hch)
    as (_ & _ & Hsent).
  cbv zeta in Hsent. rewrite Hsent. clear Hsent.
  set (s1 := cycle_upto w before s) in *.
  destruct (check_athlete w (u, tok) s1) as [r2 s2] eqn:Hone.
  apply check_athlete_spec in Hone
    as (_ & _ & _ & _ & _ & _ & rest & Htr & Hcase).
  rewrite Hhttp in Hcase. simpl in Hcase.
  cbn [snd]. rewrite (new_events_app s1 s2 _ Htr). simpl.
  destruct (decide (delivered w (sends s1) acts = acts)) as [Heq|Hne].
  - apply Hcase in Heq as Hc. destruct Hc as (-> & _).
    by rewrite sent_to_posted_events.
  - apply Hcase in Hne as ([e ->] & _).
    rewrite sent_to_app, sent_to_posted_events. simpl.
    by rewrite app_nil_r.
Qed.

(** Claim C2, as the code has it.  [check_activities] does not sort: what a
    run delivers for an athlete whose request was answered with [acts] is
    the prefix of [acts] that the delivery loop got through, in the order
    of the response.  The notifications are therefore in ascending
    start-time order whenever the response lists the activities so, and
    only then is the order guaranteed. *)
Theorem delivery_keeps_fetch_order s before u tok after acts :
  athlete_tokens s = before ++ (u, tok) :: after ->
  Dict.wf (athlete_tokens s) ->
  channel_at w (lookups s) = true ->
  http_at w (requests (cycle_upto w before s)) = Response 200 (Some acts) ->
  (let sent := sent_to u (new_events s (check_activities w s).2) in
   sent = delivered w (sends (cycle_upto w before s)) acts
   /\ sent `prefix_of` acts
   /\ (ascending acts -> ascending sent)).
Proof.
  intros Hsplit Hwf Hch Hhttp. cbv zeta.
  rewrite (cycle_sent_to s before u tok after acts) by done.
  split_and!; [done | apply delivered_prefix |].
  apply ascending_prefix, delivered_prefix.
Qed.

(** Claim C3, as the code has it.  When the first [k] activities of the
    response are delivered and the delivery of the next one fails (a key
    [post_activity] subscripts is missing, or the send is rejected), the run
    has delivered exactly those [k] activities, has attempted at most one
    further send, and leaves the athlete's watermark at the value it had
    before the run. *)
Theorem failed_delivery_keeps_watermark s before u tok after acts k ak :
  athlete_tokens s = before ++ (u, tok) :: after ->
  Dict.wf (athlete_tokens s) ->
  channel_at w (lookups s) = true ->
  http_at w (requests (cycle_upto w before s)) = Response 200 (Some acts) ->
  (forall i a, i < k -> acts !! i = Some a ->
     renderable a && send_at w (sends (cycle_upto w before s) + i) = true) ->
  acts !! k = Some ak ->
  renderable ak && send_at w (sends (cycle_upto w before s) + k) = false ->
  (let s' := (check_activities w s).2 in
   sent_to u (new_events s s') = take k acts
   /\ sends (cycle_upto w (before ++ [(u, tok)]) s)
      <= sends (cycle_upto w before s) + S k
   /\ Dict.get u (last_checked s') = Dict.get u (last_checked s)).
Proof.
  intros Hsplit Hwf Hch Hhttp Hok Hk Hfail.
  pose proof (cycle_sent_to s before u tok after acts
                Hsplit Hwf Hch Hhttp) as Hsent.
  destruct (cycle_focus s before u tok after Hsplit Hwf Hch)
    as (Hg1 & Hg2 & _).
  cbv zeta in *. rewrite Hsent, Hg2, <- Hg1.
  set (s1 := cycle_upto w before s) in *.
  pose proof (delivered_take _ _ _ _ Hok Hk Hfail) as Hdel.
  assert (Hlen : length (take k acts) = k).
  { rewrite length_take. apply lookup_lt_Some in Hk. lia. }
  split_and!; [done | |].
  { rewrite cycle_upto_snoc. fold s1.
    destruct (check_athlete_sends u tok s1) as [_ Hsn].
    specialize (Hsn acts Hhttp). rewrite Hdel, Hlen in Hsn. done. }
  destruct (check_athlete w (u, tok) s1) as [r2 s2] eqn:Hone.
  apply check_athlete_spec in Hone
    as (_ & _ & _ & _ & _ & _ & rest & Htr & Hcase).
  rewrite Hhttp in Hcase. simpl in Hcase.
  destruct Hcase as [_ Hcase]. cbn [snd].
  destruct Hcase as (_ & -> & _); [|done].
  rewrite Hdel. intros Heq.
  apply (f_equal length) in Heq. rewrite Hlen in Heq.
  apply lookup_lt_Some in Hk. lia.
Qed.
End Facts.

(** * Commands, whole runs of the task, and sequences of both *)

Section Runs.
Variable w : World.

Lemma mem_advances_same s s' :
  last_checked s' = last_checked s -> clock_reads s' = clock_reads s ->
  mem_advances w s s'.
Proof. intros Hl Hc. split; [lia|]. rewrite Hl. by left. Qed.

Lemma mem_advances_refl s : mem_advances w s s.
Proof. by apply mem_advances_same. Qed.

Lemma mem_advances_trans s1 s2 s3 :
  mem_advances w s1 s2 -> mem_advances w s2 s3 -> mem_advances w s1 s3.
Proof.
  intros [Hc H] [Hc' H']. split; [lia|].
  intros u t' Hget. destruct (H' u t' Hget) as [Hold|(i & Hi & ->)].
  - destruct (H u t' Hold) as [?|(i & Hi & ->)]; [by left|].
    right. exists i. split; [lia | done].
  - right. exists i. split; [lia | done].
Qed.

Lemma athletes_loop_advances items s :
  mem_advances w s (for_each items (check_athlete w) s).2.
Proof.
  destruct (for_each items (check_athlete w) s) as [r s'] eqn:Hloop.
  apply (athletes_loop_rel w (mem_advances w)) in Hloop as [_ H]; [done|..].
  - apply mem_advances_refl.
  - apply mem_advances_trans.
  - intros [u tok] s0 r0 s0' _ Hone.
    apply check_athlete_summary in Hone as (Hc & Hlc & _).
    split; [done|]. intros v t' Hget.
    destruct Hlc as [Heq|(i & Hi & Heq)]; rewrite Heq in Hget; [by left|].
    rewrite get_setitem in Hget.
    destruct (decide (u = v)); [|by left].
    injection Hget as <-. right. by exists i.
Qed.

Lemma advances_trans s1 s2 s3 :
  advances w s1 s2 -> advances w s2 s3 -> advances w s1 s3.
Proof.
  intros [Hm Hp] [Hm' Hp']. split; [by eapply mem_advances_trans|].
  destruct Hm as [Hc Hm], Hm' as [Hc' Hm'].
  intros u t' Hget.
  destruct (Hp' u t' Hget) as [Hold|[Hmem|(i & Hi & ->)]].
  - destruct (Hp u t' Hold) as [?|[?|(i & Hi & ->)]]; [by left | by right; left|].
    right; right. exists i. split; [lia | done].
  - destruct (Hm u t' Hmem) as [?|(i & Hi & ->)]; [by right; left|].
    right; right. exists i. split; [lia | done].
  - right; right. exists i. split; [lia | done].
Qed.

Lemma advances_refl s : advances w s s.
Proof. split; [apply mem_advances_refl | by left]. Qed.


Lemma set_token_eq u tok s :
  set_token w u tok s
  = (Ok tt,
     let tokens := Dict.setitem u tok (athlete_tokens s) in
     let checked :=
       Dict.setitem u (now_at w (clock_reads s)) (last_checked s) in
     {| athlete_tokens := tokens; last_checked := checked;
        bot_data := JsonDoc (Some tokens) (Some checked);
        loop_running := loop_running s; clock_reads := S (clock_reads s);
        requests := requests s; sends := sends s; lookups := lookups s;
        trace := trace s ++ [EvSave tokens checked;
                             EvReply ("Token set for athlete " +:+ u)] |}).
Proof.
  unfold set_token, save_data, emit, bind, gets, modify, datetime_now; simpl.
  by rewrite <- app_assoc.
Qed.

Lemma remove_athlete_eq u s :
  remove_athlete u s
  = if Dict.contains u (athlete_tokens s) then
      if Dict.contains u (last_checked s) then
        (Ok tt,
         let tokens := Dict.delitem u (athlete_tokens s) in
         let checked := Dict.delitem u (last_checked s) in
         {| athlete_tokens := tokens; last_checked := checked;
            bot_data := JsonDoc (Some tokens) (Some checked);
            loop_running := loop_running s; clock_reads := clock_reads s;
            requests := requests s; sends := sends s; lookups := lookups s;
            trace := trace s ++ [EvSave tokens checked;
                                 EvReply ("Removed athlete " +:+ u)] |})
      else
        (Raise (KeyError u),
         set_athlete_tokens (Dict.delitem u (athlete_tokens s)) s)
    else
      emit (EvReply ("Athlete " +:+ u +:+ " not found")) s.
Proof.
  unfold remove_athlete, save_data, emit, bind, gets, modify, raise; simpl.
  destruct (Dict.contains u (athlete_tokens s)); [|done].
  destruct (Dict.contains u (last_checked s)); simpl; [|done].
  by rewrite <- app_assoc.
Qed.

Section Clock.
Hypothesis Hclock : monotone_clock w.

Lemma mem_advances_timely s s' :
  timely w s -> mem_advances w s s' ->
  forall u t, Dict.get u (last_checked s') = Some t ->
              (t <= now_at w (clock_reads s'))%Z.
Proof.
  intros [Hmem _] [Hc Hadv] u t Hget.
  destruct (Hadv u t Hget) as [Hold|(i & Hi & ->)].
  - etrans; [by apply (Hmem u) | apply Hclock; lia].
  - apply Hclock. lia.
Qed.

(** A step that ends by writing the data file. *)
Lemma saved_timely s s' tokens :
  timely w s -> mem_advances w s s' ->
  bot_data s' = JsonDoc tokens (Some (last_checked s')) ->
  timely w s' /\ advances w s s'.
Proof.
  intros Ht Hadv Hdata.
  pose proof (mem_advances_timely s s' Ht Hadv) as Hmem'.
  unfold timely, advances, persisted. rewrite Hdata.
  split_and!; try done.
  - intros u t Hget. split; [by apply (Hmem' u)|].
    intros t' Hget'. rewrite Hget in Hget'. injection Hget' as ->. done.
  - intros u t' Hget. destruct Hadv as [_ Hadv].
    destruct (Hadv u t' Hget) as [?|?]; [by right; left | by right; right].
Qed.

(** A step that leaves the data file as it was. *)
Lemma unsaved_timely s s' :
  timely w s -> mem_advances w s s' -> bot_data s' = bot_data s ->
  timely w s' /\ advances w s s'.
Proof.
  intros Ht Hadv Hdata.
  pose proof (mem_advances_timely s s' Ht Hadv) as Hmem'.
  destruct Ht as [Hmem Hdisk]. destruct Hadv as [Hc Hadv].
  unfold timely, advances, mem_advances, persisted. rewrite Hdata.
  split_and!; try done.
  - intros u t Hget. destruct (Hdisk u t Hget) as [Hle Hlem].
    split; [etrans; [done | apply Hclock; lia]|].
    intros t' Hget'. destruct (Hadv u t' Hget') as [Hold|(i & Hi & ->)].
    + by apply Hlem.
    + etrans; [done | apply Hclock; lia].
  - intros u t' Hget. by left.
Qed.

Lemma step_timely op s :
  timely w s -> timely w (step w op s) /\ advances w s (step w op s).
Proof.
  intros Ht. destruct op as [u tok|u| |]; cbn [step].
  - (* set_token *)
    rewrite set_token_eq. simpl.
    eapply saved_timely; [done| |reflexivity].
    split; simpl; [lia|]. intros v t'. rewrite get_setitem.
    destruct (decide (u = v)); [|by left].
    intros [= <-]. right. exists (clock_reads s). split; [lia | done].
  - (* remove_athlete *)
    rewrite remove_athlete_eq.
    destruct (Dict.contains u (athlete_tokens s)); simpl.
    + destruct (Dict.contains u (last_checked s)); simpl.
      * eapply saved_timely; [done| |reflexivity].
        split; simpl; [lia|]. intros v t' Hget. left.
        destruct (decide (u = v)) as [->|Hne];
          [by rewrite get_delitem_eq in Hget|].
        by rewrite get_delitem_ne in Hget.
      * apply unsaved_timely; [done| |done]. by apply mem_advances_same.
    + apply unsaved_timely; [done| |done]. by apply mem_advances_same.
  - (* on_ready *)
    unfold on_ready. rewrite bind_eq. simpl.
    destruct (loop_running s); simpl;
      (apply unsaved_timely; [done| |done]); by apply mem_advances_same.
  - (* check_activities *)
    destruct (loop_running s); [|split; [done | apply advances_refl]].
    rewrite check_activities_eq.
    destruct (athlete_tokens s) as [|it items] eqn:Htok;
      [split; [done | apply advances_refl]|].
    destruct (channel_at w (lookups s)).
    + rewrite save_data_spec. simpl.
      eapply saved_timely; [done| |reflexivity]. simpl.
      apply (athletes_loop_advances (it :: items) (get_channel w s).2).
    + simpl. apply unsaved_timely; [done| |done]. by apply mem_advances_same.
Qed.

Lemma run_app ops1 ops2 s : run w (ops1 ++ ops2) s = run w ops2 (run w ops1 s).
Proof. apply foldl_app. Qed.

Lemma run_timely ops s :
  timely w s -> timely w (run w ops s) /\ advances w s (run w ops s).
Proof.
  revert s. induction ops as [|op ops IH]; intros s Ht; simpl.
  - split; [done | apply advances_refl].
  - destruct (step_timely op s Ht) as [Ht1 Hadv1].
    destruct (IH _ Ht1) as [Ht2 Hadv2].
    split; [done | by eapply advances_trans].
Qed.

(** Claim C1, as the code has it.  The watermark is whatever
    [datetime.now()] returned, written without comparing it to the old
    value.  With a wall clock that never steps backwards, and starting from
    stores that hold no watermark from the future, the watermark of an
    athlete never decreases along any sequence of commands and runs of the
    task, whatever the API answers and whatever happens to the sends: both
    the watermark in memory and the one in the data file are, at any later
    point where the athlete has one, at least what they were. *)
Theorem watermark_never_decreases s ops1 ops2 u :
  timely w s ->
  (let s1 := run w ops1 s in
   let s2 := run w (ops1 ++ ops2) s in
   (forall t t', Dict.get u (last_checked s1) = Some t ->
                 Dict.get u (last_checked s2) = Some t' -> (t <= t')%Z)
   /\ (forall t t', persisted u s1 = Some t ->
                    persisted u s2 = Some t' -> (t <= t')%Z)).
Proof.
  intros Ht. cbv zeta. rewrite run_app.
  destruct (run_timely ops1 s Ht) as [[Hmem Hdisk] _].
  destruct (run_timely ops2 (run w ops1 s) (conj Hmem Hdisk))
    as [_ [[Hc Hadv] Hpadv]].
  set (s1 := run w ops1 s) in *. set (s2 := run w ops2 s1) in *.
  split.
  - intros t t' Hget Hget'.
    destruct (Hadv u t' Hget') as [Hold|(i & Hi & ->)].
    + rewrite Hget in Hold. by injection Hold as ->.
    + etrans; [by apply (Hmem u) | apply Hclock; lia].
  - intros t t' Hget Hget'. destruct (Hdisk u t Hget) as [Hle Hlem].
    destruct (Hpadv u t' Hget') as [Hold|[Hm|(i & Hi & ->)]].
    + rewrite Hget in Hold. by injection Hold as ->.
    + by apply Hlem.
    + etrans; [done | apply Hclock; lia].
Qed.
End Clock.

(** With a watermark present for every athlete, the loop rewrites
    watermarks in place: the keys of [last_checked] stay as they are. *)
Lemma athletes_loop_keys items s :
  (forall it, it ∈ items -> is_Some (Dict.get it.1 (last_checked s))) ->
  Dict.keys (last_checked (for_each items (check_athlete w) s).2)
  = Dict.keys (last_checked s).
Proof.
  destruct (for_each items (check_athlete w) s) as [r s'] eqn:Hloop.
  apply (athletes_loop_rel w (fun s s' =>
    (forall it, it ∈ items -> is_Some (Dict.get it.1 (last_checked s))) ->
    Dict.keys (last_checked s') = Dict.keys (last_checked s)))
    in Hloop as [_ H]; [done|..].
  - done.
  - intros s1 s2 s3 H12 H23 Hall. rewrite H23, H12; [done..|].
    intros it Hin. apply get_is_Some. rewrite (H12 Hall).
    apply get_is_Some. by apply Hall.
  - intros [u tok] s0 r0 s0' Hin Hone Hall.
    apply check_athlete_summary in Hone as (_ & [->|(i & _ & ->)] & _);
      [done|].
    apply keys_setitem_present. by apply (Hall (u, tok)).
Qed.

Lemma check_activities_ok s : (check_activities w s).1 = Ok tt.
Proof.
  rewrite check_activities_eq. destruct (athlete_tokens s); [done|].
  by destruct (channel_at w (lookups s)).
Qed.

Lemma step_tick s :
  step w Tick s = if loop_running s then (check_activities w s).2 else s.
Proof.
  cbn [step]. pose proof (check_activities_ok s) as Hok.
  by destruct (check_activities w s) as [[[]|e] s'].
Qed.

Lemma check_activities_idle s :
  athlete_tokens s = [] -> check_activities w s = (Ok tt, s).
Proof. intros H. by rewrite check_activities_eq, H. Qed.

Lemma check_activities_no_channel s :
  athlete_tokens s <> [] -> channel_at w (lookups s) = false ->
  check_activities w s = emit EvNoChannel (get_channel w s).2.
Proof.
  intros Hne Hch. rewrite check_activities_eq, Hch.
  by destruct (athlete_tokens s).
Qed.

(** The three ways a run of the task can go. *)
Lemma check_activities_cases s :
  (athlete_tokens s = [] /\ check_activities w s = (Ok tt, s))
  \/ (athlete_tokens s <> [] /\ channel_at w (lookups s) = false
      /\ check_activities w s = emit EvNoChannel (get_channel w s).2)
  \/ (athlete_tokens s <> [] /\ channel_at w (lookups s) = true
      /\ check_activities w s
         = save_data (cycle_upto w (athlete_tokens s) s)).
Proof.
  destruct (decide (athlete_tokens s = [])) as [He|Hne].
  - left. split; [done | by apply check_activities_idle].
  - right. destruct (channel_at w (lookups s)) eqn:Hch.
    + right. split_and!; [done.. | by apply check_activities_runs].
    + left. split_and!; [done.. | by apply check_activities_no_channel].
Qed.

Lemma cycle_upto_frame items s :
  athlete_tokens (cycle_upto w items s) = athlete_tokens s
  /\ bot_data (cycle_upto w items s) = bot_data s
  /\ loop_running (cycle_upto w items s) = loop_running s
  /\ lookups (cycle_upto w items s) = S (lookups s)
  /\ exists evs, trace (cycle_upto w items s) = trace s ++ evs
                 /\ saves evs = [].
Proof.
  destruct (athletes_loop_frame w items (get_channel w s).2)
    as (? & ? & ? & ? & _ & ?).
  unfold cycle_upto. split_and!; done.
Qed.

Lemma cycle_upto_advances items s : mem_advances w s (cycle_upto w items s).
Proof. apply (athletes_loop_advances items (get_channel w s).2). Qed.

Lemma cycle_upto_keys items s :
  (forall it, it ∈ items -> is_Some (Dict.get it.1 (last_checked s))) ->
  Dict.keys (last_checked (cycle_upto w items s))
  = Dict.keys (last_checked s).
Proof. apply (athletes_loop_keys items (get_channel w s).2). Qed.

Lemma paired_consistent s : paired s -> consistent s.
Proof. intros H u. apply H. Qed.

Lemma new_events_refl s : new_events s s = [].
Proof. unfold new_events. apply drop_all. Qed.

(** Every run of the task asks for each athlete once, in dictionary order,
    provided it has a channel to post to. *)
Lemma check_activities_fetched s :
  (fetched (new_events s (check_activities w s).2)).*1
  = if channel_at w (lookups s) then Dict.keys (athlete_tokens s) else [].
Proof.
  destruct (check_activities_cases s)
    as [[He ->]|[(_ & Hch & ->)|(_ & Hch & ->)]]; cbn [snd].
  - rewrite new_events_refl, He. by destruct (channel_at w (lookups s)).
  - rewrite Hch. unfold new_events. simpl. by rewrite drop_app_length.
  - rewrite Hch, save_data_spec. cbn [snd].
    destruct (athletes_loop_fetched w (athlete_tokens s) (get_channel w s).2)
      as (_ & evs & Htr & Hf).
    fold (cycle_upto w (athlete_tokens s) s) in Htr. simpl in Htr.
    unfold new_events. simpl. rewrite Htr, <- app_assoc, drop_app_length.
    rewrite fetched_app, fmap_app, Hf. simpl. by rewrite app_nil_r.
Qed.

Lemma tick_frame s :
  athlete_tokens (step w Tick s) = athlete_tokens s
  /\ loop_running (step w Tick s) = loop_running s.
Proof.
  rewrite step_tick. destruct (loop_running s) eqn:Hrun; [|done].
  destruct (check_activities_cases s)
    as [[_ ->]|[(_ & _ & ->)|(_ & _ & ->)]]; [done | done |].
  rewrite save_data_spec. cbn [snd]. simpl.
  by destruct (cycle_upto_frame (athlete_tokens s) s) as (-> & _ & -> & _).
Qed.

(** Claim C9.  Whatever the world does (requests that fail, bodies that
    are not JSON, activities that cannot be rendered, sends that are
    rejected), a run of [check_activities] returns normally, has issued one
    request for every athlete of [athlete_tokens], in order, when it had a
    channel, and leaves the periodic task running. *)
Theorem check_activities_never_raises s :
  (check_activities w s).1 = Ok tt
  /\ (fetched (new_events s (check_activities w s).2)).*1
     = (if channel_at w (lookups s) then Dict.keys (athlete_tokens s) else [])
  /\ loop_running (step w Tick s) = loop_running s.
Proof.
  split_and!;
    [apply check_activities_ok | apply check_activities_fetched
    | apply tick_frame].
Qed.

(** Claim C8, as the code has it.  A run that has athletes and a channel
    writes the data file exactly once, as its last action, after every
    athlete has been processed; while the athletes are being processed the
    file stays as the run found it. *)
Theorem watermarks_saved_once_at_end s :
  athlete_tokens s <> [] -> channel_at w (lookups s) = true ->
  (let s' := (check_activities w s).2 in
   (exists evs,
      new_events s s'
      = evs ++ [EvSave (athlete_tokens s') (last_checked s')]
      /\ saves evs = [])
   /\ (forall before after,
         athlete_tokens s = before ++ after ->
         bot_data (cycle_upto w before s) = bot_data s)
   /\ bot_data s' = JsonDoc (Some (athlete_tokens s')) (Some (last_checked s'))).
Proof.
  intros Hne Hch. cbv zeta.
  rewrite check_activities_runs, save_data_spec by done. cbn [snd]. simpl.
  destruct (cycle_upto_frame (athlete_tokens s) s)
    as (_ & _ & _ & _ & evs & Htr & Hsv).
  split_and!; [|intros before after _; apply cycle_upto_frame | done].
  exists evs. split; [|done].
  unfold new_events. simpl. by rewrite Htr, <- app_assoc, drop_app_length.
Qed.

Lemma filter_fst_absent (u : string) (l : list (string * Z)) :
  u ∉ l.*1 -> filter (fun p => p.1 = u) l = [].
Proof.
  induction l as [|[v z] l IH]; [done|]. simpl. rewrite not_elem_of_cons.
  intros [Hne Hl]. rewrite filter_cons_False by (simpl; congruence).
  by apply IH.
Qed.

Lemma asked_after_app u evs evs' :
  asked_after u (evs ++ evs') = asked_after u evs ++ asked_after u evs'.
Proof. unfold asked_after. by rewrite fetched_app, filter_app, fmap_app. Qed.

(** The one request a run of the task issues for an athlete asks for
    what came after the athlete's watermark as the run found it. *)
Lemma cycle_asked_after s before u tok after :
  athlete_tokens s = before ++ (u, tok) :: after ->
  Dict.wf (athlete_tokens s) ->
  channel_at w (lookups s) = true ->
  asked_after u (new_events s (check_activities w s).2)
  = [(window w u (cycle_upto w before s)).1].
Proof.
  intros Hsplit Hwf Hch.
  destruct (cycle_decompose w s before u tok after Hsplit Hwf Hch)
    as (_ & _ & evs1 & evs2 & evs3 & Htr2 & Hnew & _ & H1 & _ & H3).
  rewrite Hnew, !asked_after_app.
  unfold asked_after at 1 3 4. simpl.
  rewrite !filter_fst_absent by done. simpl.
  set (s1 := cycle_upto w before s) in *.
  destruct (check_athlete w (u, tok) s1) as [r2 s2] eqn:Hone.
  apply check_athlete_summary in Hone as (_ & _ & evs & Htr & Hf & _).
  simpl in Htr2. rewrite Htr in Htr2. apply app_inv_head in Htr2 as <-.
  unfold asked_after. rewrite Hf.
  rewrite filter_cons_True by done. by rewrite app_nil_r.
Qed.

Lemma window_of_watermark u s d :
  Dict.get u (last_checked s) = Some d -> (window w u s).1 = timestamp w d.
Proof. unfold window. by intros ->. Qed.

Lemma tick_run_tokens n s :
  athlete_tokens (run w (repeat Tick n) s) = athlete_tokens s.
Proof.
  revert s. induction n as [|n IH]; intros s; simpl; [done|].
  rewrite IH. apply tick_frame.
Qed.

Lemma get_of_split {V} (before after : Dict.t V) u v :
  u ∉ Dict.keys before ->
  Dict.get u (before ++ (u, v) :: after) = Some v.
Proof.
  induction before as [|[k x] before IH]; simpl.
  - intros _. by rewrite decide_True.
  - unfold Dict.keys. simpl. rewrite not_elem_of_cons.
    intros [Hne Hb]. rewrite decide_False by congruence. by apply IH.
Qed.

Lemma dict_split {V} (d : Dict.t V) u v :
  Dict.get u d = Some v ->
  exists before after, d = before ++ (u, v) :: after.
Proof.
  induction d as [|[k x] d IH]; simpl; [done|].
  destruct (decide (k = u)) as [->|Hne].
  - intros [= ->]. by exists [], d.
  - intros Hget. destruct (IH Hget) as (before & after & ->).
    by exists ((k, x) :: before), after.
Qed.

(** Claim C4, as the code has it.  A 401 or 403 answer to an athlete's
    request sends no notification for that athlete, and suspends nothing:
    the athlete keeps the credential through every later run of the task,
    and each later run that has a channel asks for the athlete again. *)
Theorem rejected_credential_is_polled_again s before u tok after st body :
  athlete_tokens s = before ++ (u, tok) :: after ->
  Dict.wf (athlete_tokens s) ->
  channel_at w (lookups s) = true ->
  http_at w (requests (cycle_upto w before s)) = Response st body ->
  (st = 401 \/ st = 403)%Z ->
  (let s' := (check_activities w s).2 in
   sent_to u (new_events s s') = []
   /\ forall n,
        let sn := run w (repeat Tick n) s' in
        Dict.get u (athlete_tokens sn) = Some tok
        /\ (loop_running sn = true -> channel_at w (lookups sn) = true ->
            u ∈ (fetched (new_events sn (step w Tick sn))).*1)).
Proof.
  intros Hsplit Hwf Hch Hhttp Hst. cbv zeta.
  assert (Htok' : athlete_tokens (check_activities w s).2 = athlete_tokens s).
  { destruct (tick_frame s) as [Ht _]. rewrite step_tick in Ht.
    destruct (check_activities_cases s)
      as [[_ ->]|[(_ & _ & ->)|(_ & _ & ->)]]; [done..|].
    rewrite save_data_spec. simpl. apply cycle_upto_frame. }
  split.
  - destruct (cycle_focus w s before u tok after Hsplit Hwf Hch)
      as (_ & _ & ->).
    set (s1 := cycle_upto w before s) in *.
    destruct (check_athlete w (u, tok) s1) as [r2 s2] eqn:Hone.
    apply check_athlete_spec in Hone
      as (_ & _ & _ & _ & _ & _ & rest & Htr & Hcase).
    rewrite Hhttp in Hcase.
    destruct (decide (st = 200%Z)) as [->|_]; [lia|].
    destruct Hcase as (-> & _). cbn [snd].
    by rewrite (new_events_app _ _ _ Htr).
  - intros n.
    assert (Hget : Dict.get u (athlete_tokens
                     (run w (repeat Tick n) (check_activities w s).2))
                   = Some tok).
    { rewrite tick_run_tokens, Htok', Hsplit. apply get_of_split.
      rewrite Hsplit in Hwf. by apply wf_split in Hwf as [? _]. }
    split; [done|]. intros Hrun Hch'.
    set (sn := run w (repeat Tick n) (check_activities w s).2) in *.
    rewrite step_tick, Hrun, check_activities_fetched, Hch'.
    apply get_is_Some. by rewrite Hget.
Qed.

(** Claim C6, as the code has it.  [set_token] stores the registration
    time itself as the athlete's first watermark, and the first request for
    the athlete asks for activities after that time (in whole seconds). *)
Theorem registration_watermark_is_now s u tok :
  Dict.wf (athlete_tokens s) ->
  channel_at w (lookups s) = true ->
  (let s0 := step w (SetToken u tok) s in
   Dict.get u (last_checked s0) = Some (now_at w (clock_reads s))
   /\ asked_after u (new_events s0 (check_activities w s0).2)
      = [timestamp w (now_at w (clock_reads s))]).
Proof.
  intros Hwf Hch. cbv zeta. cbn [step]. rewrite set_token_eq. cbn [snd].
  cbv zeta. set (s0 := Build_Bot _ _ _ _ _ _ _ _ _).
  assert (Hget : Dict.get u (last_checked s0) = Some (now_at w (clock_reads s)))
    by apply get_setitem_eq.
  split; [done|].
  assert (Hin : Dict.get u (athlete_tokens s0) = Some tok)
    by apply get_setitem_eq.
  destruct (dict_split _ _ _ Hin) as (before & after & Hsplit).
  assert (Hwf0 : Dict.wf (athlete_tokens s0)) by by apply wf_setitem.
  rewrite (cycle_asked_after s0 before u tok after Hsplit Hwf0 Hch).
  destruct (cycle_focus w s0 before u tok after Hsplit Hwf0 Hch)
    as (Hg1 & _).
  rewrite Hget in Hg1. by rewrite (window_of_watermark _ _ _ Hg1).
Qed.

(** An answer with a status other than 200 is treated as an empty list
    of activities: nothing is delivered and the athlete's watermark moves
    to the time of the run. *)
Theorem error_status_advances_watermark s before u tok after st body d :
  athlete_tokens s = before ++ (u, tok) :: after ->
  Dict.wf (athlete_tokens s) ->
  channel_at w (lookups s) = true ->
  http_at w (requests (cycle_upto w before s)) = Response st body ->
  st <> 200%Z ->
  Dict.get u (last_checked s) = Some d ->
  (let s' := (check_activities w s).2 in
   Dict.get u (last_checked s')
   = Some (now_at w (clock_reads (cycle_upto w before s)))
   /\ sent_to u (new_events s s') = []).
Proof.
  intros Hsplit Hwf Hch Hhttp Hst Hd. cbv zeta.
  destruct (cycle_focus w s before u tok after Hsplit Hwf Hch)
    as (Hg1 & Hg2 & Hsent).
  cbv zeta in Hg1, Hg2, Hsent. rewrite Hd in Hg1.
  rewrite Hg2, Hsent. clear Hg2 Hsent.
  set (s1 := cycle_upto w before s) in *.
  destruct (check_athlete w (u, tok) s1) as [r2 s2] eqn:Hone.
  apply check_athlete_spec in Hone
    as (_ & _ & _ & _ & _ & _ & rest & Htr & Hcase).
  rewrite Hhttp in Hcase. rewrite decide_False in Hcase by done.
  destruct Hcase as (-> & Hlc & _). cbn [snd].
  rewrite Hlc, (new_events_app _ _ _ Htr), get_setitem_eq.
  unfold window. rewrite Hg1. done.
Qed.

(** Registering an athlete and removing it again leaves no entry for it
    in either store, in memory or in the data file. *)
Theorem register_then_remove_leaves_no_trace s u tok :
  let s' := run w [SetToken u tok; RemoveAthlete u] s in
  Dict.get u (athlete_tokens s') = None
  /\ Dict.get u (last_checked s') = None
  /\ persisted u s' = None
  /\ bot_data s' = JsonDoc (Some (athlete_tokens s')) (Some (last_checked s')).
Proof.
  cbv zeta. unfold run. cbn [foldl step].
  rewrite set_token_eq. cbn [snd]. cbv zeta. rewrite remove_athlete_eq.
  cbn [athlete_tokens last_checked].
  assert (H1 : Dict.contains u (Dict.setitem u tok (athlete_tokens s)) = true)
    by (apply contains_true; rewrite get_setitem_eq; eauto).
  assert (H2 : Dict.contains u
            (Dict.setitem u (now_at w (clock_reads s)) (last_checked s)) = true)
    by (apply contains_true; rewrite get_setitem_eq; eauto).
  rewrite H1, H2. cbn [snd]. unfold persisted. simpl.
  by rewrite !get_delitem_eq.
Qed.

(** Claim C10.  Without a data file [load_data] does not raise and leaves
    both stores as they were, so a bot that starts without one has no
    athletes and no watermarks. *)
Theorem missing_file_starts_empty :
  (forall s, exists s',
     load_data NoFile s = (Ok tt, s')
     /\ athlete_tokens s' = athlete_tokens s
     /\ last_checked s' = last_checked s)
  /\ (init NoFile).1 = Ok tt
  /\ athlete_tokens (init NoFile).2 = []
  /\ last_checked (init NoFile).2 = [].
Proof.
  split; [|done]. intros s.
  unfold load_data, try_except_FileNotFoundError.
  rewrite bind_eq. unfold open_read, raise.
  eexists. split; [reflexivity | done].
Qed.
End Runs.


(** * Scenarios, checked *)

Import Scenario.

Lemma scripted_monotone http outcomes : monotone_clock (scripted http outcomes).
Proof. intros i j Hij. unfold scripted, quarter. simpl. lia. Qed.

Lemma init_timely w : timely w (init NoFile).2.
Proof. split; intros u t; simpl; done. Qed.

Lemma init_paired : paired (init NoFile).2.
Proof. intros u. simpl. done. Qed.

(** Claim C2 fails: activities listed newest first are delivered newest
    first. *)
Lemma newest_first_is_delivered_first :
  ~ ascending (sent_to "U1"
       (new_events (one_athlete newest_first)
          (check_activities newest_first (one_athlete newest_first)).2)).
Proof.
  change (~ ascending [noon; morning]). intros H.
  apply StronglySorted_inv in H as [_ H]. apply Forall_inv in H.
  unfold start_le in H. simpl in H. unfold T0 in H. lia.
Qed.

(** Claim C3 fails: after one delivery and one failed send, the watermark
    is not the start time of the delivered activity. *)
Lemma failed_send_leaves_watermark_behind :
  ~ watermark_follows_delivery second_send_fails
      (one_athlete second_send_fails) "U1".
Proof.
  intros H. specialize (H morning eq_refl). vm_compute in H. discriminate.
Qed.

(** Claim C4 fails: the run after a 401 asks for the same athlete again. *)
Lemma rejected_athlete_is_asked_again :
  ~ skipped_once_rejected second_rejected (two_athletes second_rejected) "U2".
Proof.
  intros H.
  specialize (H [("U1", "token-1")] "token-2" [] 401%Z None eq_refl eq_refl
                (or_introl eq_refl)).
  apply H. vm_compute. apply list_elem_of_further, list_elem_of_here.
Qed.

(** Claim C6 fails: the watermark stored at registration is not 24 hours
    back. *)
Lemma registration_stores_now :
  ~ bootstrap_watermark quiet (init NoFile).2 "U1" "token-1".
Proof. unfold bootstrap_watermark. vm_compute. discriminate. Qed.

(** Claim C8 fails: when the second athlete is taken up, the data file
    still holds the first athlete's old watermark. *)
Lemma watermark_in_memory_only_until_the_end :
  ~ persisted_before_next_user quiet (two_athletes quiet).
Proof.
  intros H.
  specialize (H [] "U1" "token-1" [("U2", "token-2")] eq_refl ltac:(done)).
  vm_compute in H. discriminate.
Qed.

(** Claim C5 at its failing input: the only request of a run is answered
    with status 500; the run delivers nothing, moves the watermark from the
    registration time to the time of the run, and the next run asks for
    activities after that later time, not after the first one. *)
Example server_error_moves_watermark :
  let w := server_error in
  let s := one_athlete w in
  let s' := step w Tick s in
  Dict.get "U1" (last_checked s) = Some T0
  /\ asked_after "U1" (new_events s s') = [timestamp w T0]
  /\ sent_to "U1" (new_events s s') = []
  /\ Dict.get "U1" (last_checked s') = Some (T0 + quarter)%Z
  /\ asked_after "U1" (new_events s' (step w Tick s'))
     = [timestamp w (T0 + quarter)%Z].
Proof. vm_compute. done. Qed.

(** * The theorems at concrete inputs *)

Lemma watermark_never_decreases_witness :
  monotone_clock quiet /\ timely quiet (init NoFile).2
  /\ (let s1 := run quiet [Ready; SetToken "U1" "token-1"; Tick]
                  (init NoFile).2 in
      let s2 := run quiet ([Ready; SetToken "U1" "token-1"; Tick]
                           ++ [Tick; RemoveAthlete "U1";
                               SetToken "U1" "token-9"; Tick])
                  (init NoFile).2 in
      (forall t t', Dict.get "U1" (last_checked s1) = Some t ->
                    Dict.get "U1" (last_checked s2) = Some t' -> (t <= t')%Z)
      /\ (forall t t', persisted "U1" s1 = Some t ->
                       persisted "U1" s2 = Some t' -> (t <= t')%Z)).
Proof.
  split_and!; [apply scripted_monotone | apply init_timely |].
  apply (watermark_never_decreases quiet (scripted_monotone [] [])
           (init NoFile).2 _ _ "U1" (init_timely quiet)).
Defined.

Lemma delivery_keeps_fetch_order_witness :
  let w := newest_first in
  let s := one_athlete w in
  let sent := sent_to "U1" (new_events s (check_activities w s).2) in
  sent = delivered w (sends (cycle_upto w [] s)) [noon; morning]
  /\ sent `prefix_of` [noon; morning]
  /\ (ascending [noon; morning] -> ascending sent).
Proof.
  apply (delivery_keeps_fetch_order newest_first (one_athlete newest_first)
           [] "U1" "token-1" [] [noon; morning]).
  - vm_compute. reflexivity.
  - unfold Dict.wf. vm_compute. apply NoDup_singleton.
  - reflexivity.
  - vm_compute. reflexivity.
Defined.

Lemma failed_delivery_keeps_watermark_witness :
  let w := second_send_fails in
  let s := one_athlete w in
  let s' := (check_activities w s).2 in
  sent_to "U1" (new_events s s') = take 1 [morning; noon]
  /\ sends (cycle_upto w ([] ++ [("U1", "token-1")]) s)
     <= sends (cycle_upto w [] s) + 2
  /\ Dict.get "U1" (last_checked s') = Dict.get "U1" (last_checked s).
Proof.
  apply (failed_delivery_keeps_watermark second_send_fails
           (one_athlete second_send_fails) [] "U1" "token-1" []
           [morning; noon] 1 noon).
  - vm_compute. reflexivity.
  - unfold Dict.wf. vm_compute. apply NoDup_singleton.
  - reflexivity.
  - vm_compute. reflexivity.
  - intros i a Hi Ha. destruct i as [|i]; [|lia].
    injection Ha as <-. vm_compute. reflexivity.
  - reflexivity.
  - vm_compute. reflexivity.
Defined.

Lemma rejected_credential_is_polled_again_witness :
  let w := second_rejected in
  let s := two_athletes w in
  let s' := (check_activities w s).2 in
  sent_to "U2" (new_events s s') = []
  /\ forall n,
       let sn := run w (repeat Tick n) s' in
       Dict.get "U2" (athlete_tokens sn) = Some "token-2"
       /\ (loop_running sn = true -> channel_at w (lookups sn) = true ->
           "U2" ∈ (fetched (new_events sn (step w Tick sn))).*1).
Proof.
  apply (rejected_credential_is_polled_again second_rejected
           (two_athletes second_rejected) [("U1", "token-1")] "U2" "token-2"
           [] 401%Z None).
  - vm_compute. reflexivity.
  - unfold Dict.wf. vm_compute.
    apply NoDup_cons. split; [|apply NoDup_singleton].
    intros H%list_elem_of_singleton. discriminate.
  - reflexivity.
  - vm_compute. reflexivity.
  - by left.
Defined.

Lemma registration_watermark_is_now_witness :
  let w := quiet in
  let s := one_athlete w in
  let s0 := step w (SetToken "U2" "token-2") s in
  Dict.get "U2" (last_checked s0) = Some (now_at w (clock_reads s))
  /\ asked_after "U2" (new_events s0 (check_activities w s0).2)
     = [timestamp w (now_at w (clock_reads s))].
Proof.
  apply (registration_watermark_is_now quiet (one_athlete quiet) "U2" "token-2").
  - unfold Dict.wf. vm_compute. apply NoDup_singleton.
  - reflexivity.
Defined.

Lemma watermarks_saved_once_at_end_witness :
  let w := quiet in
  let s := two_athletes w in
  let s' := (check_activities w s).2 in
  (exists evs,
     new_events s s' = evs ++ [EvSave (athlete_tokens s') (last_checked s')]
     /\ saves evs = [])
  /\ (forall before after,
        athlete_tokens s = before ++ after ->
        bot_data (cycle_upto w before s) = bot_data s)
  /\ bot_data s' = JsonDoc (Some (athlete_tokens s')) (Some (last_checked s')).
Proof.
  apply (watermarks_saved_once_at_end quiet (two_athletes quiet)).
  - vm_compute. discriminate.
  - reflexivity.
Defined.


Lemma error_status_advances_watermark_witness :
  let w := server_error in
  let s := one_athlete w in
  let s' := (check_activities w s).2 in
  Dict.get "U1" (last_checked s')
  = Some (now_at w (clock_reads (cycle_upto w [] s)))
  /\ sent_to "U1" (new_events s s') = [].
Proof.
  apply (error_status_advances_watermark server_error
           (one_athlete server_error) [] "U1" "token-1" [] 500%Z None T0).
  - vm_compute. reflexivity.
  - unfold Dict.wf. vm_compute. apply NoDup_singleton.
  - reflexivity.
  - vm_compute. reflexivity.
  - done.
  - vm_compute. reflexivity.
Defined.

(** * Further properties of the commands and of the task *)

Section More.
Variable w : World.

Lemma step_paired op s : paired s -> paired (step w op s).
Proof.
  intros Hp.
  assert (Hkeys : forall s',
    Dict.keys (athlete_tokens s') = Dict.keys (athlete_tokens s) ->
    Dict.keys (last_checked s') = Dict.keys (last_checked s) -> paired s').
  { intros s' Ht Hl u. rewrite !get_is_Some, Ht, Hl, <- !get_is_Some.
    apply Hp. }
  destruct op as [u tok|u| |].
  - cbn [step]. rewrite set_token_eq. intros v. simpl. rewrite !get_setitem.
    destruct (decide (u = v)); [by split; eauto | apply Hp].
  - cbn [step]. rewrite remove_athlete_eq.
    destruct (Dict.contains u (athlete_tokens s)) eqn:Hin; [|apply Hp].
    assert (Hin' : Dict.contains u (last_checked s) = true).
    { apply contains_true, Hp, contains_true. done. }
    rewrite Hin'. intros v. simpl. destruct (decide (u = v)) as [->|Hne].
    + rewrite !get_delitem_eq. split; intros [? ?]; done.
    + rewrite !get_delitem_ne by done. apply Hp.
  - cbn [step]. unfold on_ready. rewrite bind_eq. simpl.
    by destruct (loop_running s).
  - rewrite step_tick. destruct (loop_running s); [|done].
    destruct (check_activities_cases w s)
      as [[_ ->]|[(_ & _ & ->)|(_ & _ & ->)]]; [done| |].
    + by apply Hkeys.
    + rewrite save_data_spec. cbn [snd].
      destruct (cycle_upto_frame w (athlete_tokens s) s) as (Ht & _).
      apply Hkeys; simpl; [by rewrite Ht|].
      apply cycle_upto_keys. intros [v tok] Hin. simpl. apply Hp.
      apply get_is_Some. unfold Dict.keys.
      by apply (list_elem_of_fmap_2 fst) in Hin.
Qed.

(** [remove_athlete] for an athlete that has a credential and no watermark
    deletes the credential, then raises [KeyError] at
    [del self.last_checked[athlete_id]]: nothing is saved and nothing is
    replied, so the data file still holds what it held. *)
Theorem remove_without_watermark_raises u s :
  Dict.contains u (athlete_tokens s) = true ->
  Dict.get u (last_checked s) = None ->
  (let rs := remove_athlete u s in
   rs.1 = Raise (KeyError u)
   /\ athlete_tokens rs.2 = Dict.delitem u (athlete_tokens s)
   /\ Dict.get u (athlete_tokens rs.2) = None
   /\ last_checked rs.2 = last_checked s
   /\ bot_data rs.2 = bot_data s
   /\ new_events s rs.2 = []).
Proof.
  intros Hin Hnone. cbv zeta. rewrite remove_athlete_eq, Hin.
  apply contains_false in Hnone. rewrite Hnone. simpl.
  rewrite get_delitem_eq. split_and!; try done.
  unfold new_events. simpl. apply drop_all.
Qed.

(** A run of the task without athletes, or without the channel, asks
    nothing, delivers nothing, writes nothing and leaves the stores alone;
    without athletes it does not even look the channel up. *)
Theorem idle_run_does_nothing s :
  athlete_tokens s = [] \/ channel_at w (lookups s) = false ->
  (let s' := (check_activities w s).2 in
   athlete_tokens s' = athlete_tokens s
   /\ last_checked s' = last_checked s
   /\ bot_data s' = bot_data s
   /\ fetched (new_events s s') = []
   /\ saves (new_events s s') = []
   /\ (forall u, sent_to u (new_events s s') = [])
   /\ lookups s' = if bool_decide (athlete_tokens s = []) then lookups s
                   else S (lookups s)).
Proof.
  intros Hidle. cbv zeta.
  destruct (check_activities_cases w s)
    as [[He ->]|[(Hne & Hch & ->)|(Hne & Hch & _)]]; cbn [snd].
  - rewrite new_events_refl, bool_decide_true by done. done.
  - rewrite bool_decide_false by done. unfold new_events. simpl.
    rewrite drop_app_length. done.
  - destruct Hidle as [He|Hch']; [done | congruence].
Qed.

(** A run of the task never touches a credential and never drops a
    watermark; a watermark it leaves that was not there before is a reading
    of the clock taken during the run, for an athlete that has a
    credential. *)
Theorem run_rewrites_only_watermarks s :
  let s' := (check_activities w s).2 in
  athlete_tokens s' = athlete_tokens s
  /\ (forall u, is_Some (Dict.get u (last_checked s)) ->
                is_Some (Dict.get u (last_checked s')))
  /\ (forall u t', Dict.get u (last_checked s') = Some t' ->
         Dict.get u (last_checked s) = Some t'
         \/ (is_Some (Dict.get u (athlete_tokens s))
             /\ exists i, clock_reads s <= i < clock_reads s'
                          /\ t' = now_at w i)).
Proof.
  cbv zeta.
  assert (Hloop : forall items s0,
    let s1 := (for_each items (check_athlete w) s0).2 in
    clock_reads s0 <= clock_reads s1
    /\ (forall u, is_Some (Dict.get u (last_checked s0)) ->
                  is_Some (Dict.get u (last_checked s1)))
    /\ (forall u t', Dict.get u (last_checked s1) = Some t' ->
           Dict.get u (last_checked s0) = Some t'
           \/ (u ∈ Dict.keys items
               /\ exists i, clock_reads s0 <= i < clock_reads s1
                            /\ t' = now_at w i))).
  { intros items s0. cbv zeta.
    destruct (for_each items (check_athlete w) s0) as [r s1] eqn:Hl.
    apply (athletes_loop_rel w (fun s0 s1 =>
      clock_reads s0 <= clock_reads s1
      /\ (forall u, is_Some (Dict.get u (last_checked s0)) ->
                    is_Some (Dict.get u (last_checked s1)))
      /\ (forall u t', Dict.get u (last_checked s1) = Some t' ->
             Dict.get u (last_checked s0) = Some t'
             \/ (u ∈ Dict.keys items
                 /\ exists i, clock_reads s0 <= i < clock_reads s1
                              /\ t' = now_at w i)))) in Hl as [_ H];
      [done|..].
    - intros s2. split_and!; [done..|]. by left.
    - intros s2 s3 s4 (Hc & Hk & Hv) (Hc' & Hk' & Hv').
      split_and!; [lia | by eauto |].
      intros u t' Hget. destruct (Hv' u t' Hget) as [Hold|(Hin & i & Hi & ->)].
      + destruct (Hv u t' Hold) as [?|(Hin & i & Hi & ->)]; [by left|].
        right. split; [done|]. exists i. split; [lia | done].
      + right. split; [done|]. exists i. split; [lia | done].
    - intros [v tok] s2 r2 s3 Hin Hone.
      apply check_athlete_summary in Hone as (Hc & Hlc & _).
      split_and!; [done| |].
      + intros u. destruct Hlc as [->|(i & _ & ->)]; [done|].
        rewrite get_setitem. by destruct (decide (v = u)); eauto.
      + intros u t' Hget.
        destruct Hlc as [Heq|(i & Hi & Heq)]; rewrite Heq in Hget;
          [by left|].
        rewrite get_setitem in Hget. destruct (decide (v = u)) as [<-|];
          [|by left].
        injection Hget as <-. right. split; [|by exists i].
        unfold Dict.keys. by apply (list_elem_of_fmap_2 fst) in Hin. }
  destruct (check_activities_cases w s)
    as [[_ ->]|[(_ & _ & ->)|(_ & _ & ->)]]; cbn [snd];
    [split_and!; [done..|by left] | simpl; split_and!; [done..|by left] |].
  rewrite save_data_spec. simpl.
  destruct (cycle_upto_frame w (athlete_tokens s) s) as (Ht & _).
  destruct (Hloop (athlete_tokens s) (get_channel w s).2) as (Hc & Hk & Hv).
  fold (cycle_upto w (athlete_tokens s) s) in Hc, Hk, Hv. simpl in Hc, Hk, Hv.
  split_and!; [done..|].
  intros u t' Hget. destruct (Hv u t' Hget) as [?|(Hin & Hi)]; [by left|].
  right. split; [by apply get_is_Some | done].
Qed.

(** [set_token] sets the one athlete's credential and leaves every other
    athlete's credential and watermark alone; an athlete already registered
    keeps its place in the order of the dictionary, a new one goes last. *)
Theorem set_token_leaves_others u tok s :
  let s' := (set_token w u tok s).2 in
  Dict.get u (athlete_tokens s') = Some tok
  /\ (forall v, v <> u ->
        Dict.get v (athlete_tokens s') = Dict.get v (athlete_tokens s)
        /\ Dict.get v (last_checked s') = Dict.get v (last_checked s))
  /\ Dict.keys (athlete_tokens s')
     = (if Dict.contains u (athlete_tokens s) then Dict.keys (athlete_tokens s)
        else Dict.keys (athlete_tokens s) ++ [u])
  /\ (Dict.wf (athlete_tokens s) -> Dict.wf (athlete_tokens s')).
Proof.
  cbv zeta. rewrite set_token_eq. simpl. rewrite get_setitem_eq.
  split_and!; [done| | |apply wf_setitem].
  - intros v Hv. rewrite !get_setitem_ne by done. done.
  - destruct (Dict.contains u (athlete_tokens s)) eqn:Hin.
    + apply keys_setitem_present, contains_true, Hin.
    + apply keys_setitem_absent, contains_false, Hin.
Qed.

Lemma tokens_used_app evs evs' :
  tokens_used (evs ++ evs') = tokens_used evs ++ tokens_used evs'.
Proof. apply omap_app. Qed.

Lemma tokens_used_no_request evs : fetched evs = [] -> tokens_used evs = [].
Proof.
  induction evs as [|e evs IH]; [done|]. destruct e; simpl; try done.
Qed.

Lemma athletes_loop_tokens_used items s :
  exists evs,
    trace (for_each items (check_athlete w) s).2 = trace s ++ evs
    /\ tokens_used evs = (fun it : string * string => (it.1, it.2, 10%Z)) <$> items.
Proof.
  revert s. induction items as [|[u tok] items IH]; intros s; simpl.
  - exists []. by rewrite app_nil_r.
  - rewrite bind_eq.
    destruct (check_athlete w (u, tok) s) as [r1 s1] eqn:Hone.
    pose proof (check_athlete_summary _ _ _ _ _ _ Hone)
      as (_ & _ & evs & Htr & Hf & _).
    apply check_athlete_spec in Hone
      as (-> & _ & _ & _ & _ & _ & rest & Htr' & _).
    rewrite Htr in Htr'. apply app_inv_head in Htr' as ->.
    simpl in Hf. injection Hf as Hf.
    destruct (IH s1) as (evs' & Htr1 & Hu).
    exists ((EvGet u tok (window w u s).1 10 :: rest) ++ evs').
    rewrite Htr1, Htr, app_assoc, tokens_used_app, Hu. simpl.
    by rewrite (tokens_used_no_request _ Hf).
Qed.

(** The requests of a run are, in order, one per entry of
    [athlete_tokens], each sent with that entry's own credential and with
    [per_page] 10. *)
Theorem requests_carry_own_credential s :
  tokens_used (new_events s (check_activities w s).2)
  = if channel_at w (lookups s)
    then (fun it : string * string => (it.1, it.2, 10%Z)) <$> athlete_tokens s
    else [].
Proof.
  destruct (check_activities_cases w s)
    as [[He ->]|[(_ & Hch & ->)|(_ & Hch & ->)]]; cbn [snd].
  - rewrite new_events_refl, He. by destruct (channel_at w (lookups s)).
  - rewrite Hch. unfold new_events. simpl. by rewrite drop_app_length.
  - rewrite Hch, save_data_spec. cbn [snd].
    destruct (athletes_loop_tokens_used (athlete_tokens s) (get_channel w s).2)
      as (evs & Htr & Hu).
    fold (cycle_upto w (athlete_tokens s) s) in Htr. simpl in Htr.
    unfold new_events. simpl. rewrite Htr, <- app_assoc, drop_app_length.
    rewrite tokens_used_app, Hu. simpl. by rewrite app_nil_r.
Qed.

(** What the next run asks for an athlete that has a watermark. *)
Lemma cycle_asks_after_watermark s before u tok after d :
  athlete_tokens s = before ++ (u, tok) :: after ->
  Dict.wf (athlete_tokens s) ->
  channel_at w (lookups s) = true ->
  Dict.get u (last_checked s) = Some d ->
  asked_after u (new_events s (check_activities w s).2) = [timestamp w d].
Proof.
  intros Hsplit Hwf Hch Hd.
  rewrite (cycle_asked_after w s before u tok after Hsplit Hwf Hch).
  destruct (cycle_focus w s before u tok after Hsplit Hwf Hch) as (Hg1 & _).
  cbv zeta in Hg1. rewrite Hd in Hg1.
  by rewrite (window_of_watermark _ _ _ _ Hg1).
Qed.

Lemma check_activities_tokens s :
  athlete_tokens (check_activities w s).2 = athlete_tokens s.
Proof.
  destruct (check_activities_cases w s)
    as [[_ ->]|[(_ & _ & ->)|(_ & _ & ->)]]; [done..|].
  rewrite save_data_spec. simpl. apply cycle_upto_frame.
Qed.

(** For an athlete that has a credential and no watermark, the request
    asks for what came after the wall-clock reading 24 hours before the
    one taken at the athlete's turn, converted to POSIX seconds through the
    machine's time zone (so 23 or 25 hours back across a change of
    daylight-saving time). *)
Theorem first_check_looks_back_one_day s before u tok after :
  athlete_tokens s = before ++ (u, tok) :: after ->
  Dict.wf (athlete_tokens s) ->
  channel_at w (lookups s) = true ->
  Dict.get u (last_checked s) = None ->
  asked_after u (new_events s (check_activities w s).2)
  = [timestamp w (now_at w (clock_reads (cycle_upto w before s))
                - timedelta_hours 24)%Z].
Proof.
  intros Hsplit Hwf Hch Hnone.
  rewrite (cycle_asked_after w s before u tok after Hsplit Hwf Hch).
  destruct (cycle_focus w s before u tok after Hsplit Hwf Hch) as (Hg1 & _).
  cbv zeta in Hg1. rewrite Hnone in Hg1. unfold window. by rewrite Hg1.
Qed.

Lemma delivered_all n acts :
  (forall i a, acts !! i = Some a ->
               renderable a && send_at w (n + i) = true) ->
  delivered w n acts = acts.
Proof.
  revert n. induction acts as [|a acts IH]; intros n Hok; [done|]. simpl.
  pose proof (Hok 0 a eq_refl) as H0. rewrite Nat.add_0_r in H0.
  rewrite H0. f_equal. apply IH. intros i b Hb.
  rewrite Nat.add_succ_comm. by apply (Hok (S i)).
Qed.

(** When the request is answered with activities that can all be rendered
    and sent (possibly none), the run delivers all of them, in order, having
    asked for what came after the old watermark, and sets the watermark to
    the clock as read after the last delivery. *)
Theorem successful_delivery_advances_watermark s before u tok after acts d :
  athlete_tokens s = before ++ (u, tok) :: after ->
  Dict.wf (athlete_tokens s) ->
  channel_at w (lookups s) = true ->
  http_at w (requests (cycle_upto w before s)) = Response 200 (Some acts) ->
  (forall i a, acts !! i = Some a ->
     renderable a && send_at w (sends (cycle_upto w before s) + i) = true) ->
  Dict.get u (last_checked s) = Some d ->
  (let s' := (check_activities w s).2 in
   sent_to u (new_events s s') = acts
   /\ asked_after u (new_events s s') = [timestamp w d]
   /\ Dict.get u (last_checked s')
      = Some (now_at w (clock_reads (cycle_upto w before s)))).
Proof.
  intros Hsplit Hwf Hch Hhttp Hok Hd. cbv zeta.
  pose proof (delivered_all _ _ Hok) as Hdel.
  rewrite (cycle_sent_to w s before u tok after acts) by done.
  rewrite (cycle_asks_after_watermark s before u tok after d) by done.
  destruct (cycle_focus w s before u tok after Hsplit Hwf Hch)
    as (Hg1 & Hg2 & _).
  cbv zeta in Hg1, Hg2. rewrite Hd in Hg1. rewrite Hg2.
  set (s1 := cycle_upto w before s) in *.
  split_and!; [done..|].
  destruct (check_athlete w (u, tok) s1) as [r2 s2] eqn:Hone.
  apply check_athlete_spec in Hone
    as (_ & _ & _ & _ & _ & _ & rest & Htr & Hcase).
  rewrite Hhttp in Hcase. simpl in Hcase.
  destruct Hcase as [Hcase _]. destruct (Hcase Hdel) as (_ & Hlc & _).
  cbn [snd]. rewrite Hlc, get_setitem_eq. unfold window. by rewrite Hg1.
Qed.

(** After a run in which a delivery failed, the next run asks for the
    athlete with the same [after] as the failed one: the activities already
    delivered are fetched again. *)
Theorem failed_delivery_is_retried s before u tok after acts k ak d :
  athlete_tokens s = before ++ (u, tok) :: after ->
  Dict.wf (athlete_tokens s) ->
  channel_at w (lookups s) = true ->
  http_at w (requests (cycle_upto w before s)) = Response 200 (Some acts) ->
  (forall i a, i < k -> acts !! i = Some a ->
     renderable a && send_at w (sends (cycle_upto w before s) + i) = true) ->
  acts !! k = Some ak ->
  renderable ak && send_at w (sends (cycle_upto w before s) + k) = false ->
  Dict.get u (last_checked s) = Some d ->
  (let s' := (check_activities w s).2 in
   asked_after u (new_events s s') = [timestamp w d]
   /\ (channel_at w (lookups s') = true ->
       asked_after u (new_events s' (check_activities w s').2)
       = [timestamp w d])).
Proof.
  intros Hsplit Hwf Hch Hhttp Hok Hk Hfail Hd. cbv zeta.
  split; [by apply (cycle_asks_after_watermark s before u tok after d)|].
  intros Hch'.
  apply (cycle_asks_after_watermark _ before u tok after d);
    [by rewrite check_activities_tokens
    | by rewrite check_activities_tokens | done |].
  destruct (cycle_focus w s before u tok after Hsplit Hwf Hch)
    as (Hg1 & Hg2 & _).
  cbv zeta in Hg1, Hg2. rewrite Hd in Hg1. rewrite Hg2.
  set (s1 := cycle_upto w before s) in *.
  pose proof (delivered_take w _ _ _ _ Hok Hk Hfail) as Hdel.
  destruct (check_athlete w (u, tok) s1) as [r2 s2] eqn:Hone.
  apply check_athlete_spec in Hone
    as (_ & _ & _ & _ & _ & _ & rest & Htr & Hcase).
  rewrite Hhttp in Hcase. simpl in Hcase.
  destruct Hcase as [_ Hcase]. cbn [snd].
  destruct Hcase as (_ & -> & _); [|done].
  rewrite Hdel. intros Heq. apply (f_equal length) in Heq.
  rewrite length_take in Heq. apply lookup_lt_Some in Hk. lia.
Qed.

(** A 200 answer whose body is not JSON makes [response.json()] raise; the
    error is logged for the athlete, nothing is delivered and the watermark
    stays. *)
Theorem undecodable_answer_keeps_watermark s before u tok after :
  athlete_tokens s = before ++ (u, tok) :: after ->
  Dict.wf (athlete_tokens s) ->
  channel_at w (lookups s) = true ->
  http_at w (requests (cycle_upto w before s)) = Response 200 None ->
  (let s' := (check_activities w s).2 in
   Dict.get u (last_checked s') = Dict.get u (last_checked s)
   /\ sent_to u (new_events s s') = []
   /\ EvError u JSONDecodeError ∈ new_events s s').
Proof.
  intros Hsplit Hwf Hch Hhttp. cbv zeta.
  destruct (cycle_decompose w s before u tok after Hsplit Hwf Hch)
    as (Hg1 & Hg2 & evs1 & evs2 & evs3 & Htr2 & Hnew & H1 & _ & H3 & _).
  cbv zeta in Hg1, Hg2, Htr2, Hnew. rewrite Hg2, Hnew, <- Hg1.
  set (s1 := cycle_upto w before s) in *.
  destruct (check_athlete w (u, tok) s1) as [r2 s2] eqn:Hone.
  apply check_athlete_spec in Hone
    as (_ & _ & _ & _ & _ & _ & rest & Htr & Hcase).
  rewrite Hhttp in Hcase. simpl in Hcase. destruct Hcase as (-> & Hlc & _).
  cbn [snd] in *. rewrite Htr in Htr2. apply app_inv_head in Htr2 as <-.
  rewrite Hlc, !sent_to_app, H1, H3. split_and!; [done..|].
  rewrite !elem_of_app. right; left.
  apply list_elem_of_further, list_elem_of_here.
Qed.

Lemma keys_after_registrations ids toks s :
  NoDup ids -> length toks = length ids ->
  (forall u, u ∈ ids -> u ∉ Dict.keys (athlete_tokens s)) ->
  Dict.keys (athlete_tokens (run w (zip_with SetToken ids toks) s))
  = Dict.keys (athlete_tokens s) ++ ids.
Proof.
  revert toks s. induction ids as [|u ids IH]; intros toks s Hnd Hlen Hfresh.
  - simpl. by rewrite app_nil_r.
  - destruct toks as [|tok toks]; [done|].
    change (run w (zip_with SetToken (u :: ids) (tok :: toks)) s)
      with (run w (zip_with SetToken ids toks) (set_token w u tok s).2).
    apply NoDup_cons in Hnd as [Hu Hnd]. simpl in Hlen.
    assert (Hk : Dict.keys (athlete_tokens (set_token w u tok s).2)
                 = Dict.keys (athlete_tokens s) ++ [u]).
    { rewrite set_token_eq. simpl. apply keys_setitem_absent, get_None.
      apply Hfresh, list_elem_of_here. }
    rewrite IH; [by rewrite Hk, <- app_assoc | done | lia |].
    intros v Hv. rewrite Hk, not_elem_of_app, list_elem_of_singleton.
    split; [by apply Hfresh, list_elem_of_further | congruence].
Qed.

Lemma keys_delitem {V} u (d : Dict.t V) :
  Dict.keys (Dict.delitem u d) = filter (fun k => k <> u) (Dict.keys d).
Proof.
  unfold Dict.keys. induction d as [|[k v] d IH]; [done|]. simpl.
  destruct (decide (k = u)) as [->|Hne].
  - rewrite filter_cons_False by (intros H; by apply H). apply IH.
  - rewrite filter_cons_True by done. simpl. f_equal. apply IH.
Qed.

(** [remove_athlete] of a registered athlete deletes its credential and
    its watermark, leaves every other athlete's entries and the order of
    the remaining athletes alone, and replies. *)
Theorem remove_athlete_leaves_others u s :
  Dict.contains u (athlete_tokens s) = true ->
  Dict.contains u (last_checked s) = true ->
  (let rs := remove_athlete u s in
   rs.1 = Ok tt
   /\ Dict.get u (athlete_tokens rs.2) = None
   /\ Dict.get u (last_checked rs.2) = None
   /\ (forall v, v <> u ->
         Dict.get v (athlete_tokens rs.2) = Dict.get v (athlete_tokens s)
         /\ Dict.get v (last_checked rs.2) = Dict.get v (last_checked s))
   /\ Dict.keys (athlete_tokens rs.2)
      = filter (fun k => k <> u) (Dict.keys (athlete_tokens s))
   /\ replies (new_events s rs.2) = ["Removed athlete " +:+ u]).
Proof.
  intros Hin Hin'. cbv zeta. rewrite remove_athlete_eq, Hin, Hin'. simpl.
  rewrite !get_delitem_eq, keys_delitem.
  unfold new_events. simpl. rewrite drop_app_length.
  split_and!; try done.
  intros v Hv. by rewrite !get_delitem_ne.
Qed.

(** After distinct athletes have been registered one after another on a
    bot started without data file, [list_athletes] names them in the order
    of registration (or says that there are none) and changes nothing. *)
Theorem list_athletes_in_registration_order ids toks :
  NoDup ids -> length toks = length ids ->
  (let s := run w (zip_with SetToken ids toks) (init NoFile).2 in
   let rs := list_athletes s in
   rs.1 = Ok tt
   /\ athlete_tokens rs.2 = athlete_tokens s
   /\ last_checked rs.2 = last_checked s
   /\ bot_data rs.2 = bot_data s
   /\ replies (new_events s rs.2)
      = [match ids with
         | [] => "No athletes being monitored"
         | _ :: _ => "Monitoring athletes: " +:+ String.concat ", " ids
         end]).
Proof.
  intros Hnd Hlen. cbv zeta.
  pose proof (keys_after_registrations ids toks (init NoFile).2 Hnd Hlen) as Hk.
  rewrite app_nil_l in Hk.
  specialize (Hk ltac:(intros u _; apply not_elem_of_nil)).
  set (s := run w (zip_with SetToken ids toks) (init NoFile).2) in *.
  clearbody s. unfold list_athletes. rewrite bind_eq. simpl.
  destruct (athlete_tokens s) as [|it items] eqn:Htok.
  - simpl in Hk. subst ids. unfold new_events. simpl.
    rewrite drop_app_length. by rewrite Htok.
  - rewrite Hk. unfold new_events. simpl. rewrite drop_app_length.
    rewrite Htok. split_and!; try done.
    destruct ids; [done|]. done.
Qed.
End More.

Lemma string_length_app (a b : string) :
  String.length (a +:+ b) = String.length a + String.length b.
Proof. induction a as [|c a IH]; simpl; [done | by rewrite IH]. Qed.

Lemma fmt02d_two_digits n :
  (0 <= n < 100)%Z -> String.length (fmt02d n) = 2.
Proof.
  intros Hn.
  assert (Hall : Forall (fun k => String.length (fmt02d k) = 2) (seqZ 0 100)).
  { apply (bool_decide_unpack _). vm_compute. exact I. }
  rewrite Forall_forall in Hall. apply Hall, elem_of_seqZ. lia.
Qed.

(** The [Time] field splits a moving time of [t] seconds into hours,
    minutes below 60 and seconds below 60 that add up to [t]; below a
    hundred hours it is shown in exactly eight characters; a moving time
    of zero gives no field. *)
Theorem moving_time_is_shown_as_hms t :
  (0 <= t)%Z ->
  (let '(hours, minutes, seconds) := hms t in
   (t = 3600 * hours + 60 * minutes + seconds)%Z
   /\ (0 <= hours)%Z /\ (0 <= minutes < 60)%Z /\ (0 <= seconds < 60)%Z
   /\ ((t < 360000)%Z -> String.length (time_str t) = 8)
   /\ time_field (Some t) = if decide (t = 0%Z) then None else Some (time_str t)).
Proof.
  intros Ht. unfold time_str, hms. cbv zeta.
  pose proof (Z.div_mod t 3600 ltac:(lia)) as H1.
  pose proof (Z.mod_pos_bound t 3600 ltac:(lia)) as H2.
  pose proof (Z.div_mod (t mod 3600) 60 ltac:(lia)) as H3.
  pose proof (Z.mod_pos_bound (t mod 3600) 60 ltac:(lia)) as H4.
  assert (0 <= t / 3600)%Z by (apply Z.div_pos; lia).
  assert (0 <= t mod 3600 / 60 < 60)%Z.
  { split; [apply Z.div_pos; lia|]. apply Z.div_lt_upper_bound; lia. }
  split_and!; try lia; [|done].
  intros Hlt. rewrite !string_length_app, !fmt02d_two_digits; [done|lia..|].
  split; [done|]. apply Z.div_lt_upper_bound; lia.
Qed.

(** * The further properties at concrete inputs *)

Import MoreScenarios.

Lemma remove_without_watermark_raises_witness :
  let s := (init credential_only).2 in
  let rs := remove_athlete "U1" s in
  rs.1 = Raise (KeyError "U1")
  /\ athlete_tokens rs.2 = Dict.delitem "U1" (athlete_tokens s)
  /\ Dict.get "U1" (athlete_tokens rs.2) = None
  /\ last_checked rs.2 = last_checked s
  /\ bot_data rs.2 = bot_data s
  /\ new_events s rs.2 = [].
Proof.
  apply (remove_without_watermark_raises "U1" (init credential_only).2);
    reflexivity.
Defined.

Lemma idle_run_does_nothing_witness :
  let w := no_channel in
  let s := one_athlete w in
  let s' := (check_activities w s).2 in
  athlete_tokens s' = athlete_tokens s
  /\ last_checked s' = last_checked s
  /\ bot_data s' = bot_data s
  /\ fetched (new_events s s') = []
  /\ saves (new_events s s') = []
  /\ (forall u, sent_to u (new_events s s') = [])
  /\ lookups s' = if bool_decide (athlete_tokens s = []) then lookups s
                  else S (lookups s).
Proof.
  apply (idle_run_does_nothing no_channel (one_athlete no_channel)).
  right. reflexivity.
Defined.

Lemma first_check_looks_back_one_day_witness :
  let w := ClockScenarios.berlin in
  let s := (init credential_only).2 in
  asked_after "U1" (new_events s (check_activities w s).2)
  = [timestamp w (now_at w (clock_reads (cycle_upto w [] s))
                  - timedelta_hours 24)%Z].
Proof.
  apply (first_check_looks_back_one_day ClockScenarios.berlin
           (init credential_only).2 [] "U1" "token-1" []).
  - reflexivity.
  - unfold Dict.wf. vm_compute. apply NoDup_singleton.
  - reflexivity.
  - reflexivity.
Defined.

Lemma successful_delivery_advances_watermark_witness :
  let w := all_delivered in
  let s := one_athlete w in
  let s' := (check_activities w s).2 in
  sent_to "U1" (new_events s s') = [morning; noon]
  /\ asked_after "U1" (new_events s s') = [timestamp w T0]
  /\ Dict.get "U1" (last_checked s')
     = Some (now_at w (clock_reads (cycle_upto w [] s))).
Proof.
  apply (successful_delivery_advances_watermark all_delivered
           (one_athlete all_delivered) [] "U1" "token-1" []
           [morning; noon] T0).
  - vm_compute. reflexivity.
  - unfold Dict.wf. vm_compute. apply NoDup_singleton.
  - reflexivity.
  - vm_compute. reflexivity.
  - intros i a Ha. destruct i as [|[|i]]; [| |done];
      injection Ha as <-; vm_compute; reflexivity.
  - vm_compute. reflexivity.
Defined.

Lemma failed_delivery_is_retried_witness :
  let w := second_send_fails in
  let s := one_athlete w in
  let s' := (check_activities w s).2 in
  asked_after "U1" (new_events s s') = [timestamp w T0]
  /\ (channel_at w (lookups s') = true ->
      asked_after "U1" (new_events s' (check_activities w s').2)
      = [timestamp w T0]).
Proof.
  apply (failed_delivery_is_retried second_send_fails
           (one_athlete second_send_fails) [] "U1" "token-1" []
           [morning; noon] 1 noon T0).
  - vm_compute. reflexivity.
  - unfold Dict.wf. vm_compute. apply NoDup_singleton.
  - reflexivity.
  - vm_compute. reflexivity.
  - intros i a Hi Ha. destruct i as [|i]; [|lia].
    injection Ha as <-. vm_compute. reflexivity.
  - reflexivity.
  - vm_compute. reflexivity.
  - vm_compute. reflexivity.
Defined.

Lemma undecodable_answer_keeps_watermark_witness :
  let w := garbled in
  let s := one_athlete w in
  let s' := (check_activities w s).2 in
  Dict.get "U1" (last_checked s') = Dict.get "U1" (last_checked s)
  /\ sent_to "U1" (new_events s s') = []
  /\ EvError "U1" JSONDecodeError ∈ new_events s s'.
Proof.
  apply (undecodable_answer_keeps_watermark garbled (one_athlete garbled)
           [] "U1" "token-1" []).
  - vm_compute. reflexivity.
  - unfold Dict.wf. vm_compute. apply NoDup_singleton.
  - reflexivity.
  - vm_compute. reflexivity.
Defined.

Lemma remove_athlete_leaves_others_witness :
  let s := two_athletes quiet in
  let rs := remove_athlete "U1" s in
  rs.1 = Ok tt
  /\ Dict.get "U1" (athlete_tokens rs.2) = None
  /\ Dict.get "U1" (last_checked rs.2) = None
  /\ (forall v, v <> "U1"%string ->
        Dict.get v (athlete_tokens rs.2) = Dict.get v (athlete_tokens s)
        /\ Dict.get v (last_checked rs.2) = Dict.get v (last_checked s))
  /\ Dict.keys (athlete_tokens rs.2)
     = filter (fun k => k <> "U1"%string) (Dict.keys (athlete_tokens s))
  /\ replies (new_events s rs.2) = ["Removed athlete " +:+ "U1"].
Proof.
  apply (remove_athlete_leaves_others "U1" (two_athletes quiet));
    vm_compute; reflexivity.
Defined.

Lemma list_athletes_in_registration_order_witness :
  let s := run quiet (zip_with SetToken ["U2"; "U1"] ["token-2"; "token-1"])
             (init NoFile).2 in
  let rs := list_athletes s in
  rs.1 = Ok tt
  /\ athlete_tokens rs.2 = athlete_tokens s
  /\ last_checked rs.2 = last_checked s
  /\ bot_data rs.2 = bot_data s
  /\ replies (new_events s rs.2)
     = ["Monitoring athletes: " +:+ String.concat ", " ["U2"; "U1"]].
Proof.
  apply (list_athletes_in_registration_order quiet ["U2"; "U1"]
           ["token-2"; "token-1"]).
  - apply NoDup_cons. split; [|apply NoDup_singleton].
    intros H%list_elem_of_singleton. discriminate.
  - reflexivity.
Defined.

Lemma moving_time_is_shown_as_hms_witness :
  let '(hours, minutes, seconds) := hms 3725 in
  (3725 = 3600 * hours + 60 * minutes + seconds)%Z
  /\ (0 <= hours)%Z /\ (0 <= minutes < 60)%Z /\ (0 <= seconds < 60)%Z
  /\ ((3725 < 360000)%Z -> String.length (time_str 3725) = 8)
  /\ time_field (Some 3725%Z)
     = if decide (3725 = 0)%Z then None else Some (time_str 3725).
Proof. apply (moving_time_is_shown_as_hms 3725). lia. Defined.

(** * The invariants of the stores, and the clock *)

Import ClockScenarios.

Section Rev.
Variable w : World.

Lemma file_matches_saved s :
  bot_data s = JsonDoc (Some (athlete_tokens s)) (Some (last_checked s)) ->
  file_matches_stores s.
Proof. unfold file_matches_stores. by intros ->. Qed.

Lemma file_matches_same s s' :
  bot_data s' = bot_data s -> athlete_tokens s' = athlete_tokens s ->
  last_checked s' = last_checked s ->
  file_matches_stores s -> file_matches_stores s'.
Proof. unfold file_matches_stores. by intros -> -> ->. Qed.

Lemma step_file_matches op s :
  paired s -> file_matches_stores s -> file_matches_stores (step w op s).
Proof.
  intros Hp Hs. destruct op as [u tok|u| |].
  - cbn [step]. rewrite set_token_eq. by apply file_matches_saved.
  - cbn [step]. rewrite remove_athlete_eq.
    destruct (Dict.contains u (athlete_tokens s)) eqn:Hin;
      [|by apply (file_matches_same s)].
    assert (Hin' : Dict.contains u (last_checked s) = true).
    { apply contains_true, Hp, contains_true. done. }
    rewrite Hin'. by apply file_matches_saved.
  - cbn [step]. unfold on_ready. rewrite bind_eq. simpl.
    destruct (loop_running s); by apply (file_matches_same s).
  - rewrite step_tick. destruct (loop_running s); [|done].
    destruct (check_activities_cases w s)
      as [[_ ->]|[(_ & _ & ->)|(_ & _ & ->)]]; cbn [snd]; [done| |].
    + by apply (file_matches_same s).
    + rewrite save_data_spec. by apply file_matches_saved.
Qed.

Lemma run_file_matches ops s :
  paired s -> file_matches_stores s ->
  paired (run w ops s) /\ file_matches_stores (run w ops s).
Proof.
  revert s. induction ops as [|op ops IH]; intros s Hp Hs; [done|].
  simpl. apply IH; [by apply step_paired | by apply step_file_matches].
Qed.

(** From a start without data file and after any sequence of commands and
    runs of the task, the file [save_data] writes holds exactly what the
    stores hold (or has not been written yet, with both stores empty):
    every change of a store has been saved by the end of the operation
    that made it. *)
Theorem saved_file_matches_stores ops :
  file_matches_stores (run w ops (init NoFile).2).
Proof. apply run_file_matches; [apply init_paired | done]. Qed.





End Rev.


(** Claim C1 fails: the watermark goes down when the wall clock has been
    set back between registration and the next run, and when the data file
    the bot started from held a watermark from the future. *)
Lemma watermark_falls_with_the_clock :
  ~ never_decreases stepping_back (init NoFile).2
      [Ready; SetToken "U1" "token-1"] [Tick] "U1"
  /\ ~ never_decreases quiet (init future_file).2 [] [Ready; Tick] "U1".
Proof.
  split.
  - intros [H _]. specialize (H T0 (T0 - quarter)%Z eq_refl eq_refl).
    vm_compute in H. by apply H.
  - intros [H _]. specialize (H (T0 + 1000 * quarter)%Z T0 eq_refl eq_refl).
    vm_compute in H. by apply H.
Qed.



(** The first check of an athlete without watermark at noon of 29 October
    2023 in Berlin asks for what came after noon of the 28th, which was
    25 hours earlier. *)
Example berlin_first_check :
  asked_after "U1"
    (new_events (init credential_only).2
       (check_activities berlin (init credential_only).2).2)
  = [1698487200%Z].
Proof. vm_compute. reflexivity. Qed.

